(** * Kbus: fare, route distance, live tracking, ETA and trip bookkeeping

    A shallow embedding of [transport/views.py] (with the tables of
    [transport/models.py]) and the properties its specification states.

    Conventions of the embedding:
    - a Python [float] is an exact rational ([Q]); what IEEE-754 rounding
      does to a result is not represented;
    - a [datetime] is an integer number of microseconds ([Z]), which is the
      resolution of [timedelta];
    - a [Decimal] is a coefficient and an exponent, with the arithmetic of
      the default context (28 significant digits, ROUND_HALF_EVEN, all of
      InvalidOperation, DivisionByZero and Overflow trapped);
    - a table is the list of its rows, in storage order. *)

From stdpp Require Import base list sorting gmap strings.
From Stdlib Require Import ZArith QArith Qround Qabs Qpower Lia Lqa.

Local Open Scope Z_scope.

(** ** Exceptions *)

Inductive exn : Type :=
| InvalidOperation   (* decimal.InvalidOperation *)
| OverflowError
| ValueError
| IndexError.

Inductive result (A : Type) : Type :=
| Return (a : A)
| Raise (e : exn).
Arguments Return {A} a.
Arguments Raise {A} e.

#[global] Instance result_ret : MRet result := fun _ a => Return a.

#[global] Instance result_bind : MBind result := fun _ _ k r =>
  match r with
  | Return a => k a
  | Raise e => Raise e
  end.

(** ** Python's [decimal] module, default context *)

Module Dec.

(** [Finite c e] is the number [c * 10^e]; the sign is the sign of [c]
    (the sign of a zero plays no part in what follows). *)
Inductive Decimal : Type :=
| Finite (coeff : Z) (exp : Z)
| Infinity (negative : bool)
| NaN.

(** [getcontext().prec] *)
Definition prec : Z := 28.

(** The rational a finite decimal denotes. *)
Definition to_Q (c e : Z) : Q :=
  if 0 <=? e then inject_Z (c * 10 ^ e) else Qmake c (Z.to_pos (10 ^ (- e))).

(** Number of decimal digits of a positive integer. *)
Fixpoint ndigits_aux (fuel : nat) (n : Z) : Z :=
  match fuel with
  | O => 0
  | S fuel' => if n <? 10 then 1 else 1 + ndigits_aux fuel' (n / 10)
  end.

Definition ndigits (n : Z) : Z := ndigits_aux (S (Z.to_nat (Z.log2 n))) n.

(** [c / m] rounded to the nearest integer, ties to even (ROUND_HALF_EVEN);
    [m] is a positive power of ten. *)
Definition round_half_even (c m : Z) : Z :=
  let a := Z.abs c in
  let q := a / m in
  let r := a mod m in
  let q' := if 2 * r <? m then q
            else if m <? 2 * r then q + 1
            else if Z.even q then q else q + 1 in
  Z.sgn c * q'.

(** [Decimal._fix]: round a result to the precision of the context. The
    exponent limits (Emax = 999999, Emin = -999999) are out of reach of
    any value computed from the numeral of a float and are not modelled. *)
Definition fix_ (c e : Z) : Decimal :=
  if Z.abs c <? 10 ^ prec then Finite c e
  else
    let k := ndigits (Z.abs c) - prec in
    let c' := round_half_even c (10 ^ k) in
    if Z.abs c' <? 10 ^ prec then Finite c' (e + k)
    else Finite (c' / 10) (e + k + 1).

(** An exact quotient is given the exponent closest to the ideal one:
    up to [n] trailing zeros of the coefficient are dropped. *)
Fixpoint strip_zeros (n : nat) (c e : Z) : Z * Z :=
  match n with
  | O => (c, e)
  | S n' => if (c mod 10 =? 0) && negb (c =? 0)
            then strip_zeros n' (c / 10) (e + 1)
            else (c, e)
  end.

(** [x / Decimal('1000')]: the quotient by a power of ten is exact, and
    rounded to the context like every result. *)
Definition truediv_1000 (x : Decimal) : result Decimal :=
  match x with
  | Finite c e => let '(c', e') := strip_zeros 3 c (e - 3) in Return (fix_ c' e')
  | Infinity s => Return (Infinity s)
  | NaN => Return NaN
  end.

(** [x <= y]: an ordering comparison with a NaN signals InvalidOperation. *)
Definition le (x y : Decimal) : result bool :=
  match x, y with
  | NaN, _ | _, NaN => Raise InvalidOperation
  | Infinity true, _ => Return true
  | Infinity false, Infinity false => Return true
  | Infinity false, _ => Return false
  | Finite _ _, Infinity s => Return (negb s)
  | Finite c1 e1, Finite c2 e2 =>
      let m := Z.min e1 e2 in
      Return (c1 * 10 ^ (e1 - m) <=? c2 * 10 ^ (e2 - m))
  end.

(** [x + y] and [x - y]: the exact result has the smaller exponent. *)
Definition add (x y : Decimal) : result Decimal :=
  match x, y with
  | NaN, _ | _, NaN => Return NaN
  | Infinity s1, Infinity s2 =>
      if Bool.eqb s1 s2 then Return (Infinity s1) else Raise InvalidOperation
  | Infinity s, _ | _, Infinity s => Return (Infinity s)
  | Finite c1 e1, Finite c2 e2 =>
      let m := Z.min e1 e2 in
      Return (fix_ (c1 * 10 ^ (e1 - m) + c2 * 10 ^ (e2 - m)) m)
  end.

Definition opp (x : Decimal) : Decimal :=
  match x with
  | Finite c e => Finite (- c) e
  | Infinity s => Infinity (negb s)
  | NaN => NaN
  end.

Definition sub (x y : Decimal) : result Decimal := add x (opp y).

(** [x.to_integral_value(rounding=ROUND_CEILING)] *)
Definition to_integral_value_ceiling (x : Decimal) : Decimal :=
  match x with
  | Finite c e =>
      if 0 <=? e then Finite c e else Finite (- ((- c) / 10 ^ (- e))) 0
  | _ => x
  end.

(** [int(x)]: truncation towards zero. *)
Definition to_int (x : Decimal) : result Z :=
  match x with
  | Finite c e =>
      Return (if 0 <=? e then c * 10 ^ e else Z.quot c (10 ^ (- e)))
  | Infinity _ => Raise OverflowError
  | NaN => Raise ValueError
  end.

(** [Decimal(n)] for an [int]: exact whatever the precision. *)
Definition of_int (n : Z) : Decimal := Finite n 0.

(** [x.quantize(Decimal('0.01'))]: the value with exponent -2, or
    InvalidOperation when the coefficient would need more than [prec]
    digits. *)
Definition quantize_cents (x : Decimal) : result Decimal :=
  match x with
  | Finite c e =>
      if c =? 0 then Return (Finite 0 (-2))
      else if prec <? ndigits (Z.abs c) + e + 2 then Raise InvalidOperation
      else
        let c' := if -2 <=? e then c * 10 ^ (e + 2)
                  else round_half_even c (10 ^ (-2 - e)) in
        if Z.abs c' <? 10 ^ prec then Return (Finite c' (-2))
        else Raise InvalidOperation
  | Infinity _ => Raise InvalidOperation
  | NaN => Return NaN
  end.

(** Number of digits after the decimal point in the printed form. *)
Definition decimal_places (x : Decimal) : option Z :=
  match x with
  | Finite _ e => Some (Z.max 0 (- e))
  | _ => None
  end.

End Dec.

(** ** FareCalculator: [_fare_from_distance_m] (views.py, 134-152) *)

(** What [Decimal(str(distance_m))] makes of the argument. For a float,
    [str] prints the shortest numeral that reads back as the same float, or
    [inf], [-inf], [nan]; every one of them is a numeral the constructor
    accepts. Any other object (None, a word) is refused with
    InvalidOperation. *)
Inductive distance_arg : Type :=
| Numeral (d : Dec.Decimal)
| NotANumeral.

Definition Decimal_of_str (a : distance_arg) : result Dec.Decimal :=
  match a with
  | Numeral d => Return d
  | NotANumeral => Raise InvalidOperation
  end.

Definition base_km : Dec.Decimal := Dec.Finite 25 (-1).
Definition base_fare : Dec.Decimal := Dec.Finite 10 0.

Definition _fare_from_distance_m (distance_m : distance_arg) : result Dec.Decimal :=
  match (d ← Decimal_of_str distance_m; Dec.truediv_1000 d) with
  | Raise _ => Return base_fare
  | Return km =>
      below ← Dec.le km base_km;
      if (below : bool) then Return base_fare
      else
        extra_km ← Dec.sub km base_km;
        extra_units ← Dec.to_int (Dec.to_integral_value_ceiling extra_km);
        total ← Dec.add base_fare (Dec.of_int extra_units);
        Dec.quantize_cents total
  end.

(** The numeral of a finite float has at most 17 significant digits. *)
Definition float_numeral (c e : Z) : Prop :=
  Z.abs c < 10 ^ 17 /\ -340 <= e <= 308.


(** ** Floats and numeric conversions *)

Local Open Scope Q_scope.

Definition Qltb (x y : Q) : bool := negb (Qle_bool y x).



(** [timedelta.total_seconds()], the timedelta counted in microseconds. *)
Definition total_seconds (td : Z) : Q := inject_Z td / 1000000.

(** ** Tables (transport/models.py)

    Rows carry the columns the views below read or write. A foreign key is
    the primary key of the row it points to. *)

Record Stop : Type := mkStop {
  stop_id : Z;
  stop_route : Z;
  stop_name : string;
  stop_order : Z;
  stop_latitude : Q;
  stop_longitude : Q }.

Record Bus : Type := mkBus {
  bus_id : Z;
  bus_operator_name : string;
  bus_route : Z;
  bus_otp_code : string;
  bus_current_stop : option string;
  bus_trip_active : bool;
  bus_trip_start_time : option Z }.

Record BusLiveLocation : Type := mkBusLiveLocation {
  loc_id : Z;
  loc_bus : Z;
  loc_latitude : Q;
  loc_longitude : Q;
  loc_speed : Q;
  loc_updated_at : Z }.

Record User : Type := mkUser {
  user_id : Z;
  user_username : string;
  user_role : string }.

Record DriverRegistration : Type := mkDriverRegistration {
  reg_id : Z;
  reg_user : Z;
  reg_bus_otp : string;
  reg_created_at : Z }.

Record DriverBusAssignment : Type := mkDriverBusAssignment {
  asg_id : Z;
  asg_user : Z;
  asg_bus : Z;
  asg_active : bool;
  asg_start_time : Z;
  asg_end_time : option Z }.

Record BusTrip : Type := mkBusTrip {
  trip_id : Z;
  trip_bus : Z;
  trip_start_time : Z;
  trip_end_time : option Z }.

Record DB : Type := mkDB {
  db_stops : list Stop;
  db_buses : list Bus;
  db_locations : list BusLiveLocation;
  db_registrations : list DriverRegistration;
  db_assignments : list DriverBusAssignment;
  db_trips : list BusTrip }.

Definition with_buses (buses : list Bus) (db : DB) : DB :=
  mkDB (db_stops db) buses (db_locations db) (db_registrations db)
       (db_assignments db) (db_trips db).

Definition with_locations (locs : list BusLiveLocation) (db : DB) : DB :=
  mkDB (db_stops db) (db_buses db) locs (db_registrations db)
       (db_assignments db) (db_trips db).

Definition with_assignments (asgs : list DriverBusAssignment) (db : DB) : DB :=
  mkDB (db_stops db) (db_buses db) (db_locations db) (db_registrations db)
       asgs (db_trips db).

Definition with_trips (trips : list BusTrip) (db : DB) : DB :=
  mkDB (db_stops db) (db_buses db) (db_locations db) (db_registrations db)
       (db_assignments db) trips.

(** ** Querysets *)

Local Open Scope Z_scope.

(** [order_by]: a stable insertion sort for the order [leb]. *)
Fixpoint insert_by {A} (leb : A -> A -> bool) (x : A) (l : list A) : list A :=
  match l with
  | [] => [x]
  | y :: l' => if leb x y then x :: l else y :: insert_by leb x l'
  end.

Definition order_by {A} (leb : A -> A -> bool) (l : list A) : list A :=
  foldr (insert_by leb) [] l.

(** Ascending on a first key, then on a second. *)
Definition lex_leb (k1 k2 : Z) (k1' k2' : Z) : bool :=
  (k1 <? k1') || ((k1 =? k1') && (k2 <=? k2')).

(** [.order_by('order', 'id')] *)
Definition stop_leb (s t : Stop) : bool :=
  lex_leb (stop_order s) (stop_id s) (stop_order t) (stop_id t).

(** [.order_by('-updated_at', '-id')] *)
Definition loc_leb (a b : BusLiveLocation) : bool :=
  lex_leb (loc_updated_at b) (loc_id b) (loc_updated_at a) (loc_id a).

(** [.order_by('-start_time', '-id')] *)
Definition trip_leb (a b : BusTrip) : bool :=
  lex_leb (trip_start_time b) (trip_id b) (trip_start_time a) (trip_id a).



(** [.first()] of a queryset without an ordering: the row with the least
    primary key. *)
Definition first_by_pk {A} (pk : A -> Z) (rows : list A) : option A :=
  head (order_by (fun a b => pk a <=? pk b) rows).

(** The primary key given to a created row. *)
Definition fresh_pk (pks : list Z) : Z := 1 + foldr Z.max 0 pks.

(** [Stop.objects.filter(route=route).order_by('order', 'id')] *)
Definition route_stops_ordered (db : DB) (route : Z) : list Stop :=
  order_by stop_leb (filter (fun s => stop_route s = route) (db_stops db)).

(** [Bus.objects.filter(id=bus_id).first()] *)
Definition get_bus (db : DB) (id : Z) : option Bus :=
  first_by_pk bus_id (filter (fun b => bus_id b = id) (db_buses db)).

(** [BusLiveLocation.objects.filter(bus=bus).order_by('-updated_at', '-id').first()] *)
Definition latest_location (db : DB) (bus : Z) : option BusLiveLocation :=
  head (order_by loc_leb (filter (fun l => loc_bus l = bus) (db_locations db))).

(** [BusTrip.objects.filter(bus=bus, end_time__isnull=True)
      .order_by('-start_time', '-id').first()] *)
Definition is_open_trip_of (bus : Z) (t : BusTrip) : Prop :=
  trip_bus t = bus /\ trip_end_time t = None.

#[global] Instance is_open_trip_of_dec bus t : Decision (is_open_trip_of bus t).
Proof. unfold is_open_trip_of. apply _. Defined.

Definition open_trip_of (db : DB) (bus : Z) : option BusTrip :=
  head (order_by trip_leb (filter (is_open_trip_of bus) (db_trips db))).

(** The writes a view sends to the database, in the order it sends them. *)
Inductive db_write : Type :=
| SavedLocation (row : BusLiveLocation) (update_fields : list string)
| CreatedLocation (row : BusLiveLocation)
| SavedBus (row : Bus) (update_fields : list string)
| SavedTrip (row : BusTrip) (update_fields : list string)
| CreatedTrip (row : BusTrip)
| CreatedAssignment (row : DriverBusAssignment).

(** [row.save(update_fields=[...])]: UPDATE ... WHERE id = pk. *)
Definition update_rows {A} (pk : A -> Z) (id : Z) (f : A -> A) (rows : list A) : list A :=
  (fun r => if decide (pk r = id) then f r else r) <$> rows.

Definition set_current_stop (name : string) (b : Bus) : Bus :=
  mkBus (bus_id b) (bus_operator_name b) (bus_route b) (bus_otp_code b)
        (Some name) (bus_trip_active b) (bus_trip_start_time b).

Definition set_trip_start_time (t : Z) (b : Bus) : Bus :=
  mkBus (bus_id b) (bus_operator_name b) (bus_route b) (bus_otp_code b)
        (bus_current_stop b) (bus_trip_active b) (Some t).

Definition set_trip_active (a : bool) (b : Bus) : Bus :=
  mkBus (bus_id b) (bus_operator_name b) (bus_route b) (bus_otp_code b)
        (bus_current_stop b) a (bus_trip_start_time b).

Definition set_trip_end_time (t : Z) (r : BusTrip) : BusTrip :=
  mkBusTrip (trip_id r) (trip_bus r) (trip_start_time r) (Some t).

(** ** The views (transport/views.py) *)

Section Views.

Local Open Scope Q_scope.

(** [distance_meters lat1 lon1 lat2 lon2] (views.py, 52-60) is the
    haversine formula, computed in binary64 over the sine, cosine, square
    root and arc tangent of the C library. The views only call it; they
    are embedded for an arbitrary function of four floats. *)
Variable distance_meters : Q -> Q -> Q -> Q -> Q.

(** *** [_estimate_speed_mps] (views.py, 63-75) *)

Definition _estimate_speed_mps
    (prev_lat prev_lng : option Q) (prev_time : option Z)
    (lat lng : Q) (now_time : Z) : Q :=
  match prev_lat, prev_lng, prev_time with
  | Some prev_lat, Some prev_lng, Some prev_time =>
      let dt := total_seconds (now_time - prev_time) in
      if Qle_bool dt (1 # 2) || Qltb 120 dt then 0
      else
        let d := distance_meters prev_lat prev_lng lat lng in
        if Qltb d 0 then 0 else d / dt
  | _, _, _ => 0
  end.

(** *** [_route_remaining_distance_m] (views.py, 78-112) *)

(** The loop of lines 107-110, on the pair [(path, prev)]. *)
Definition add_leg (acc : Q * Stop) (s : Stop) : Q * Stop :=
  let '(path, prev) := acc in
  (path + distance_meters (stop_latitude prev) (stop_longitude prev)
                          (stop_latitude s) (stop_longitude s), s).

(** The length of the path through the stops of [l], one after the other:
    what the specification calls the sum of the consecutive stop-to-stop
    distances. *)
Fixpoint path_length (l : list Stop) : Q :=
  match l with
  | a :: (b :: _) as l' =>
      distance_meters (stop_latitude a) (stop_longitude a)
                      (stop_latitude b) (stop_longitude b) + path_length l'
  | _ => 0
  end.

(** Lines 87-92: the first stop of the route that bears the name the bus
    records; an empty name is falsy and counts as no record. *)
Definition current_stop_of (bus : Bus) (stops : list Stop) : option Stop :=
  match bus_current_stop bus with
  | Some name =>
      if decide (name = EmptyString) then None
      else snd <$> list_find (fun s => stop_name s = name) stops
  | None => None
  end.

Definition _route_remaining_distance_m (db : DB) (bus : Bus) (lat lng : Q)
    : option Stop * option Q * option Q :=
  let stops := route_stops_ordered db (bus_route bus) in
  match stops with
  | [] => (None, None, None)
  | first :: _ =>
      match current_stop_of bus stops with
      | None =>
          let next_stop := first in
          let remaining :=
            distance_meters lat lng (stop_latitude next_stop) (stop_longitude next_stop) in
          (Some next_stop, Some remaining, Some remaining)
      | Some current =>
          let remaining_stops :=
            filter (fun s => (stop_order current < stop_order s)%Z) stops in
          match remaining_stops with
          | [] => (None, Some 0, Some 0)
          | next_stop :: rest =>
              let dist_to_next :=
                distance_meters lat lng (stop_latitude next_stop) (stop_longitude next_stop) in
              let path := fst (fold_left add_leg rest (dist_to_next, next_stop)) in
              (Some next_stop, Some dist_to_next, Some path)
          end
      end
  end.

(** *** [_route_path_distance_m] (views.py, 115-131) *)

(** [enumerate(stops)] *)
Definition enumerate {A} (l : list A) : list (nat * A) := imap pair l.

(** [{s.id: i for i, s in enumerate(stops)}]: a later entry replaces an
    earlier one under the same key. *)
Definition id_to_index (stops : list Stop) : gmap Z nat :=
  fold_left (fun m '(i, s) => <[stop_id s := i]> m) (enumerate stops) ∅.

(** [l[i]] *)
Definition index {A} (l : list A) (i : nat) : result A :=
  match l !! i with
  | Some x => Return x
  | None => Raise IndexError
  end.

(** The loop of lines 127-130 over the indices [idxs]. *)
Fixpoint sum_legs (stops : list Stop) (idxs : list nat) (total : Q) : result Q :=
  match idxs with
  | [] => Return total
  | i :: idxs' =>
      a ← index stops i;
      b ← index stops (i + 1);
      sum_legs stops idxs'
        (total + distance_meters (stop_latitude a) (stop_longitude a)
                                 (stop_latitude b) (stop_longitude b))
  end.

Definition _route_path_distance_m (db : DB) (route : Z) (source_stop dest_stop : Stop)
    : result Q :=
  let stops := route_stops_ordered db route in
  let direct :=
    distance_meters (stop_latitude source_stop) (stop_longitude source_stop)
                    (stop_latitude dest_stop) (stop_longitude dest_stop) in
  match stops with
  | [] => Return direct
  | _ :: _ =>
      let id_to_index := id_to_index stops in
      match id_to_index !! stop_id source_stop, id_to_index !! stop_id dest_stop with
      | Some i_src, Some i_dst =>
          if (i_dst <=? i_src)%nat then Return direct
          else sum_legs stops (seq i_src (i_dst - i_src)) 0
      | _, _ => Return direct
      end
  end.

(** *** [update_bus_location] (views.py, 646-713) *)

(** The request once its fields are read: [req_lat] is
    [payload.get('lat') or payload.get('latitude')] as a float, [None] when
    there is none; [req_speed] is [None] when the payload has no speed (the
    view then takes 0). A payload that does not read as JSON or as numbers
    is answered 400 before any table is touched and has no place here. *)
Record location_request : Type := mkLocationRequest {
  req_is_post : bool;
  req_lat : option Q;
  req_lng : option Q;
  req_speed : option Q }.

Inductive json_status : Type :=
| StatusOk
| StatusError (code : Z) (error : string).

(** Lines 699-706: the scan for the nearest stop, on the pair
    [(nearest_stop, nearest_dist)]. *)
Definition nearer (lat lng : Q) (acc : option (Stop * Q)) (stop : Stop)
    : option (Stop * Q) :=
  let dist := distance_meters lat lng (stop_latitude stop) (stop_longitude stop) in
  match acc with
  | None => Some (stop, dist)
  | Some (_, nearest_dist) => if Qltb dist nearest_dist then Some (stop, dist) else acc
  end.

Definition valid_range (lat lng : Q) : bool :=
  Qle_bool (-90) lat && Qle_bool lat 90 && Qle_bool (-180) lng && Qle_bool lng 180.

Definition update_bus_location (db : DB) (req : location_request) (id : Z) (now : Z)
    : json_status * DB * list db_write :=
  if negb (req_is_post req) then (StatusError 405 "Method not allowed", db, [])
  else
    match req_lat req, req_lng req with
    | Some lat_f, Some lng_f =>
        match get_bus db id with
        | None => (StatusError 404 "Bus not found", db, [])
        | Some bus =>
            let speed_f := default 0 (req_speed req) in
            if negb (valid_range lat_f lng_f)
            then (StatusError 400 "Invalid latitude/longitude range", db, [])
            else
              let speed_f := if Qltb speed_f 0 then 0 else speed_f in
              let '(db1, w1) :=
                match latest_location db (bus_id bus) with
                | Some loc =>
                    let speed_f :=
                      if Qle_bool speed_f 0
                      then _estimate_speed_mps
                             (Some (loc_latitude loc)) (Some (loc_longitude loc))
                             (Some (loc_updated_at loc)) lat_f lng_f now
                      else speed_f in
                    let set r := mkBusLiveLocation (loc_id r) (loc_bus r) lat_f lng_f speed_f now in
                    (with_locations (update_rows loc_id (loc_id loc) set (db_locations db)) db,
                     [SavedLocation (set loc) ["latitude"; "longitude"; "speed"; "updated_at"]])
                | None =>
                    let speed_f := if Qle_bool speed_f 0 then 0 else speed_f in
                    let row := mkBusLiveLocation (fresh_pk (loc_id <$> db_locations db))
                                 (bus_id bus) lat_f lng_f speed_f now in
                    (with_locations (db_locations db ++ [row]) db, [CreatedLocation row])
                end in
              let stops := filter (fun s => stop_route s = bus_route bus) (db_stops db) in
              match fold_left (nearer lat_f lng_f) stops None with
              | Some (nearest_stop, nearest_dist) =>
                  if Qltb nearest_dist 50 then
                    if decide (bus_current_stop bus = Some (stop_name nearest_stop))
                    then (StatusOk, db1, w1)
                    else
                      let set := set_current_stop (stop_name nearest_stop) in
                      (StatusOk,
                       with_buses (update_rows bus_id (bus_id bus) set (db_buses db1)) db1,
                       w1 ++ [SavedBus (set bus) ["current_stop"]])
                  else (StatusOk, db1, w1)
              | None => (StatusOk, db1, w1)
              end
        end
    | _, _ => (StatusError 400 "Missing latitude/longitude", db, [])
    end.

(** *** [get_bus_location] (views.py, 716-749) *)




End Views.

(** ** Driver trips (views.py, 752-955) *)

Local Open Scope Z_scope.

(** [DriverBusAssignment.objects.create(user=user, bus=bus, active=True,
    start_time=timezone.now())] *)
Definition create_assignment (db : DB) (user : User) (bus : Bus) (now : Z)
    : DB * list db_write :=
  let row := mkDriverBusAssignment (fresh_pk (asg_id <$> db_assignments db))
               (user_id user) (bus_id bus) true now None in
  (with_assignments (db_assignments db ++ [row]) db, [CreatedAssignment row]).

Definition is_active_assignment (a : DriverBusAssignment) : Prop :=
  asg_active a = true /\ asg_end_time a = None.

#[global] Instance is_active_assignment_dec a : Decision (is_active_assignment a).
Proof. unfold is_active_assignment. apply _. Defined.

(** [_driver_can_access_bus] (views.py, 752-771) *)
Definition _driver_can_access_bus (db : DB) (user : User) (bus : Bus) (now : Z)
    : bool * DB * list db_write :=
  if decide (user_role user = "admin") then (true, db, [])
  else
    match filter (fun a => asg_user a = user_id user /\ asg_bus a = bus_id bus /\
                           is_active_assignment a) (db_assignments db) with
    | _ :: _ => (true, db, [])
    | [] =>
        let reg := first_by_pk reg_id
                     (filter (fun r => reg_user r = user_id user) (db_registrations db)) in
        let reg_matches :=
          match reg with
          | Some reg => bool_decide (reg_bus_otp reg = bus_otp_code bus)
          | None => false
          end in
        if reg_matches
        then let '(db', w) := create_assignment db user bus now in (true, db', w)
        else if decide (bus_operator_name bus = user_username user)
        then let '(db', w) := create_assignment db user bus now in (true, db', w)
        else (false, db, [])
    end.

(** [BusTrip.objects.create(bus=bus, start_time=start_time, end_time=end_time)] *)
Definition create_trip (db : DB) (bus : Bus) (start_time : Z) (end_time : option Z)
    : BusTrip * DB * list db_write :=
  let row := mkBusTrip (fresh_pk (trip_id <$> db_trips db)) (bus_id bus) start_time end_time in
  (row, with_trips (db_trips db ++ [row]) db, [CreatedTrip row]).

(** [open_trip.end_time = now; open_trip.save(update_fields=['end_time'])] *)
Definition close_trip (db : DB) (open_trip : BusTrip) (now : Z) : DB * list db_write :=
  (with_trips (update_rows trip_id (trip_id open_trip) (set_trip_end_time now) (db_trips db)) db,
   [SavedTrip (set_trip_end_time now open_trip) ["end_time"]]).

(** The backward-compatible start time of a trip that has only the flags
    of the bus: [start_time = bus.trip_start_time or timezone.now()], stored
    on the bus when the bus had none. The bus object comes back as the view
    holds it afterwards. *)
Definition legacy_start_time (db : DB) (bus : Bus) (now : Z)
    : Z * Bus * DB * list db_write :=
  match bus_trip_start_time bus with
  | Some t => (t, bus, db, [])
  | None =>
      let bus' := set_trip_start_time now bus in
      (now, bus',
       with_buses (update_rows bus_id (bus_id bus) (set_trip_start_time now) (db_buses db)) db,
       [SavedBus bus' ["trip_start_time"]])
  end.

Inductive redirect : Type :=
| RedirectDashboard (error : option string).

(** [start_trip] (views.py, 830-850) *)
Definition start_trip (db : DB) (user : User) (id : Z) (now : Z)
    : redirect * DB * list db_write :=
  match get_bus db id with
  | None => (RedirectDashboard (Some "Bus not found"), db, [])
  | Some bus =>
      let '(allowed, db0, w0) := _driver_can_access_bus db user bus now in
      if negb allowed
      then (RedirectDashboard (Some "You are not allowed to start this trip"), db0, w0)
      else
        let '(db1, w1) :=
          match open_trip_of db0 (bus_id bus) with
          | Some open_trip => close_trip db0 open_trip now
          | None => (db0, [])
          end in
        let '(trip, db2, w2) := create_trip db1 bus now None in
        let set b := set_trip_start_time (trip_start_time trip) (set_trip_active true b) in
        (RedirectDashboard None,
         with_buses (update_rows bus_id (bus_id bus) set (db_buses db2)) db2,
         w0 ++ w1 ++ w2 ++ [SavedBus (set bus) ["trip_active"; "trip_start_time"]])
  end.

(** [end_trip] (views.py, 853-881) *)
Definition end_trip (db : DB) (user : User) (id : Z) (now : Z)
    : redirect * DB * list db_write :=
  match get_bus db id with
  | None => (RedirectDashboard (Some "Bus not found"), db, [])
  | Some bus =>
      let '(allowed, db0, w0) := _driver_can_access_bus db user bus now in
      if negb allowed
      then (RedirectDashboard (Some "You are not allowed to end this trip"), db0, w0)
      else
        let '(bus1, db1, w1) :=
          match open_trip_of db0 (bus_id bus) with
          | Some open_trip =>
              let '(db', w) := close_trip db0 open_trip now in (bus, db', w)
          | None =>
              if bus_trip_active bus then
                let '(start_time, bus', db', w) := legacy_start_time db0 bus now in
                let '(_, db'', w') := create_trip db' bus' start_time (Some now) in
                (bus', db'', w ++ w')
              else (bus, db0, [])
          end in
        (RedirectDashboard None,
         with_buses (update_rows bus_id (bus_id bus) (set_trip_active false) (db_buses db1)) db1,
         w0 ++ w1 ++ [SavedBus (set_trip_active false bus1) ["trip_active"]])
  end.

(** What the two driver pages show of the trip: the bus and its active
    trip. The tickets listed with them are only read. *)
Record trip_page : Type := mkTripPage {
  page_status : json_status;
  page_bus : option Bus;
  page_active_trip : option BusTrip }.

(** Lines 799-809 and 930-937: a bus flagged as on a trip, without a
    BusTrip row that is open, is given one. *)
Definition backfill_trip (db : DB) (bus : Bus) (now : Z)
    : Bus * option BusTrip * DB * list db_write :=
  match open_trip_of db (bus_id bus) with
  | Some active_trip => (bus, Some active_trip, db, [])
  | None =>
      let '(start_time, bus', db', w) := legacy_start_time db bus now in
      let '(trip, db'', w') := create_trip db' bus' start_time None in
      (bus', Some trip, db'', w ++ w')
  end.


(** [driver_trip_summary] (views.py, 921-955) *)
Definition driver_trip_summary (db : DB) (user : User) (id : Z) (now : Z)
    : trip_page * DB * list db_write :=
  match get_bus db id with
  | None => (mkTripPage (StatusError 404 "Bus not found") None None, db, [])
  | Some bus =>
      let '(allowed, db0, w0) := _driver_can_access_bus db user bus now in
      if negb allowed
      then (mkTripPage (StatusError 403 "Forbidden") None None, db0, w0)
      else
        if bus_trip_active bus then
          let '(bus', active_trip, db1, w1) := backfill_trip db0 bus now in
          (mkTripPage StatusOk (Some bus') active_trip, db1, w0 ++ w1)
        else
          (mkTripPage StatusOk (Some bus) (open_trip_of db0 (bus_id bus)), db0, w0)
  end.

(** The number of trips of a bus that are open (no end time). *)
Definition open_trips (db : DB) (bus : Z) : nat :=
  length (filter (is_open_trip_of bus) (db_trips db)).

(** The invariant of the trip table: no bus has two open trips. *)
Definition one_open_trip_per_bus (db : DB) : Prop :=
  forall b : Z, (open_trips db b <= 1)%nat.

(** A write that stores a column of a bus. *)
Definition is_bus_write (w : db_write) : Prop :=
  match w with
  | SavedBus _ _ => True
  | _ => False
  end.

(** An executable stand-in for the great-circle distance, used to run the
    views on concrete tables: 111195 m for a degree, along the meridian and
    along the parallel. *)
Definition grid_distance_m (lat1 lon1 lat2 lon2 : Q) : Q :=
  (111195 * (Qabs (lat2 - lat1) + Qabs (lon2 - lon1)))%Q.

(** ** The route of the test suite (tests.py, [_mk_route_with_stops]) *)

Definition example_stops : list Stop :=
  [ mkStop 1 1 "S0" 0 0 0;
    mkStop 2 1 "S1" 1 (9 # 1000) 0;
    mkStop 3 1 "S2" 2 (18 # 1000) 0;
    mkStop 4 1 "S3" 3 (216 # 10000) 0;
    mkStop 5 1 "S4" 4 (306 # 10000) 0 ].

Definition example_bus : Bus := mkBus 1 "operator" 1 "KB001" None false None.

Definition example_driver : User := mkUser 7 "operator" "driver".

Definition example_db : DB := mkDB example_stops [example_bus] [] [] [] [].

(** A fix for the bus of the test route, standing at the stop S1. *)
Definition example_fix : location_request :=
  mkLocationRequest true (Some (9 # 1000)) (Some 0%Q) None.

(** The test route with the bus tracked a thousandth of a degree before
    its first stop, at 10 m/s. *)
Definition tracked_db : DB :=
  with_locations [mkBusLiveLocation 1 1 (- (1 # 1000)) 0 10 0] example_db.

(** The test route when the bus is on a trip that has its BusTrip row. *)
Definition on_trip_db : DB :=
  with_trips [mkBusTrip 1 1 0 None]
    (with_buses [set_trip_start_time 0 (set_trip_active true example_bus)] example_db).

(** ** Properties of the tables *)

(** The number of readings on file for a bus. *)
Definition readings (db : DB) (bus : Z) : nat :=
  length (filter (fun l => loc_bus l = bus) (db_locations db)).

(** A reading as the tracker accepts them: a position on the globe and a
    speed that is not negative. *)
Definition valid_reading (l : BusLiveLocation) : Prop :=
  valid_range (loc_latitude l) (loc_longitude l) = true /\ (0 <= loc_speed l)%Q.

(** ** Text: OTPs and numerals (views.py, 158-181; models.py, 40-41)

    A [str] is embedded as the string of its characters, for text within
    ASCII: what the forms and the URLs of the site carry as OTPs and ids.
    [strip], [upper] and [int_of_str] are Python's on such text. *)

Local Abbreviation ascii := Ascii.ascii.
Local Abbreviation nat_of_ascii := Ascii.nat_of_ascii.
Local Abbreviation ascii_of_nat := Ascii.ascii_of_nat.
Local Abbreviation list_ascii_of_string := String.list_ascii_of_string.
Local Abbreviation string_of_list_ascii := String.string_of_list_ascii.

(** The character of a given code: 43 is [+], 45 is [-], 95 is [_]. *)
Definition has_code (code : nat) (c : ascii) : bool := (nat_of_ascii c =? code)%nat.

(** [c.isspace()]: tab to carriage return, the four separators and the
    space. *)
Definition is_space (c : ascii) : bool :=
  let n := nat_of_ascii c in
  ((9 <=? n) && (n <=? 13) || (28 <=? n) && (n <=? 32))%nat.

Fixpoint lstrip (l : list ascii) : list ascii :=
  match l with
  | c :: l' => if is_space c then lstrip l' else l
  | [] => []
  end.

(** [s.strip()] *)
Definition strip (s : string) : string :=
  string_of_list_ascii (reverse (lstrip (reverse (lstrip (list_ascii_of_string s))))).

Definition upper_char (c : ascii) : ascii :=
  let n := nat_of_ascii c in
  if ((97 <=? n) && (n <=? 122))%nat then ascii_of_nat (n - 32) else c.

(** [s.upper()] *)
Definition upper (s : string) : string :=
  string_of_list_ascii (upper_char <$> list_ascii_of_string s).

(** The character class [[A-Z0-9]]. *)
Definition is_otp_char (c : ascii) : bool :=
  let n := nat_of_ascii c in
  ((65 <=? n) && (n <=? 90) || (48 <=? n) && (n <=? 57))%nat.

(** [_OTP_RE.fullmatch(otp)] for [_OTP_RE = re.compile(r'^[A-Z0-9]{5}$')] *)
Definition _OTP_RE_fullmatch (otp : string) : bool :=
  let l := list_ascii_of_string otp in
  (length l =? 5)%nat && forallb is_otp_char l.

(** [str(value)] of a field that is a [str] or [None]. *)
Definition str (value : option string) : string := default "None" value.

(** [_normalize_bus_otp] (views.py, 161-169) *)
Definition _normalize_bus_otp (value : option string) : option string :=
  match value with
  | None => None
  | Some _ =>
      let otp := upper (strip (str value)) in
      if decide (otp = "") then None
      else if negb (_OTP_RE_fullmatch otp) then None
      else Some otp
  end.

(** [string.ascii_uppercase + string.digits] *)
Definition otp_alphabet : list ascii :=
  list_ascii_of_string "ABCDEFGHIJKLMNOPQRSTUVWXYZ0123456789".

(** [generate_otp] (models.py, 40-41): [random.choices(population, k=5)]
    draws five positions of the population, here given as [draws]. *)
Definition generate_otp (draws : list nat) : string :=
  string_of_list_ascii (omap (fun i => otp_alphabet !! i) draws).

(** [int(s)] for a [str]: blanks around, a sign, then decimal digits that
    single underscores may separate. CPython from 3.11 on refuses a numeral
    of more than 4300 digits ([sys.int_max_str_digits]). *)
Definition digit_value (c : ascii) : option Z :=
  let n := nat_of_ascii c in
  if ((48 <=? n) && (n <=? 57))%nat then Some (Z.of_nat (n - 48)) else None.

Fixpoint scan_digits (l : list ascii) (prev_underscore : bool) (acc : Z) (digits : nat)
    : option (Z * nat) :=
  match l with
  | [] => if prev_underscore then None else Some (acc, digits)
  | c :: l' =>
      if has_code 95 c then
        if prev_underscore then None else scan_digits l' true acc digits
      else
        match digit_value c with
        | Some d => scan_digits l' false (10 * acc + d) (S digits)
        | None => None
        end
  end.

Definition int_max_str_digits : nat := 4300.

Definition int_of_str (s : string) : result Z :=
  let l := reverse (lstrip (reverse (lstrip (list_ascii_of_string s)))) in
  let '(negative, body) :=
    match l with
    | c :: l' =>
        if has_code 43 c then (false, l')
        else if has_code 45 c then (true, l')
        else (false, l)
    | [] => (false, l)
    end in
  match body with
  | [] => Raise ValueError
  | c :: _ =>
      if has_code 95 c then Raise ValueError
      else
        match scan_digits body false 0 0 with
        | Some (n, digits) =>
            if (int_max_str_digits <? digits)%nat then Raise ValueError
            else Return (if negative : bool then - n else n)
        | None => Raise ValueError
        end
  end.

(** [_to_int] (views.py, 172-181) *)
Definition _to_int (value : option string) (min_value max_value : option Z) : option Z :=
  match int_of_str (strip (str value)) with
  | Raise _ => None
  | Return i =>
      if match min_value with Some m => i <? m | None => false end then None
      else if match max_value with Some m => m <? i | None => false end then None
      else Some i
  end.

(** ** Fare quotes and tickets (views.py, 305-356 and 571-608) *)

(** A row of the Ticket table carries the values the view hands to
    [Ticket.objects.create]; [created_at] is set by [auto_now_add]. *)
Record Ticket : Type := mkTicket {
  ticket_id : Z;
  ticket_user : Z;
  ticket_bus : Z;
  ticket_source_stop : string;
  ticket_destination_stop : string;
  ticket_fare : Dec.Decimal;
  ticket_created_at : Z;
  ticket_expires_at : option Z }.

(** The form both views read: [request.POST.get('otp')] and so on, [None]
    for a field that is not sent. *)
Record fare_request : Type := mkFareRequest {
  post_is_post : bool;
  post_otp : option string;
  post_source : option string;
  post_destination : option string }.

(** [value or ''] *)
Definition or_empty (value : option string) : string := default "" value.

(** [Bus.objects.filter(otp_code=otp).first()] *)
Definition bus_by_otp (db : DB) (otp : string) : option Bus :=
  first_by_pk bus_id (filter (fun b => bus_otp_code b = otp) (db_buses db)).

(** Lines 327-331 and 590-595, for one of the two fields: the stop of the
    route of the bus that has the id the field reads as, or else the first
    stop of the route that bears the field as its name. *)
Definition select_stop (db : DB) (bus : Bus) (field : string) : option Stop :=
  let stops := filter (fun s => stop_route s = bus_route bus) (db_stops db) in
  let by_name := head (order_by stop_leb (filter (fun s => stop_name s = field) stops)) in
  match _to_int (Some field) (Some 1) None with
  | Some id =>
      if id =? 0 then by_name
      else first_by_pk stop_id (filter (fun s => stop_id s = id) stops)
  | None => by_name
  end.

(** The JSON answer of [calculate_fare]; the body of a quote carries
    [float(fare)]. *)
Inductive fare_response : Type :=
| FareQuoted (fare : Dec.Decimal)
| FareError (code : Z) (error : string).

(** Where [bus_ticket] sends the passenger, with the message it flashes. *)
Inductive booking_redirect : Type :=
| RedirectPassenger (error : option string)
| RedirectPassengerSelect (otp : string) (error : string)
| RedirectTicketView (id : Z).

(** [timedelta(minutes=30)] *)
Definition thirty_minutes : Z := 30 * 60 * 1000000.

Section Booking.

Variable distance_meters : Q -> Q -> Q -> Q -> Q.

(** [str(distance_m)] as [Decimal] reads it: the numeral of the float the
    path distance is. *)
Variable str_float : Q -> distance_arg.

(** [calculate_fare] (views.py, 571-608) *)
Definition calculate_fare (db : DB) (req : fare_request) : result fare_response :=
  if negb (post_is_post req) then Return (FareError 405 "Method not allowed")
  else
    let otp := _normalize_bus_otp (post_otp req) in
    let source := strip (or_empty (post_source req)) in
    let destination := strip (or_empty (post_destination req)) in
    match otp with
    | None => Return (FareError 400 "Invalid OTP")
    | Some otp =>
        if decide (otp = "") then Return (FareError 400 "Invalid OTP")
        else if bool_decide (source = "") || bool_decide (destination = "")
        then Return (FareError 400 "Missing fields")
        else
          match bus_by_otp db otp with
          | None => Return (FareError 400 "Invalid OTP")
          | Some bus =>
              match select_stop db bus source, select_stop db bus destination with
              | Some source_stop, Some dest_stop =>
                  if decide (stop_id source_stop = stop_id dest_stop)
                  then Return (FareError 400 "Source and destination cannot be the same stop")
                  else if stop_order dest_stop <=? stop_order source_stop
                  then Return (FareError 400 "Invalid stop selection")
                  else
                    distance_m ← _route_path_distance_m distance_meters db (bus_route bus)
                                   source_stop dest_stop;
                    fare ← _fare_from_distance_m (str_float distance_m);
                    Return (FareQuoted fare)
              | _, _ => Return (FareError 400 "Stop not found")
              end
          end
    end.

(** [bus_ticket] (views.py, 305-356), for the passenger logged in. *)
Definition bus_ticket (db : DB) (tickets : list Ticket) (user : User)
    (req : fare_request) (now : Z) : result (booking_redirect * list Ticket) :=
  if negb (post_is_post req) then Return (RedirectPassenger None, tickets)
  else
    let otp := _normalize_bus_otp (post_otp req) in
    let source := strip (or_empty (post_source req)) in
    let destination := strip (or_empty (post_destination req)) in
    match otp with
    | None => Return (RedirectPassenger (Some "Invalid OTP"), tickets)
    | Some otp =>
        if decide (otp = "") then Return (RedirectPassenger (Some "Invalid OTP"), tickets)
        else if bool_decide (source = "") || bool_decide (destination = "")
        then Return (RedirectPassenger (Some "Please select source and destination"), tickets)
        else
          match bus_by_otp db otp with
          | None => Return (RedirectPassenger (Some "Invalid OTP"), tickets)
          | Some bus =>
              match select_stop db bus source, select_stop db bus destination with
              | Some source_stop, Some dest_stop =>
                  if decide (stop_id source_stop = stop_id dest_stop)
                  then Return (RedirectPassengerSelect otp
                                 "Source and destination cannot be the same stop", tickets)
                  else if stop_order dest_stop <=? stop_order source_stop
                  then Return (RedirectPassengerSelect otp "Invalid stop selection", tickets)
                  else
                    distance_m ← _route_path_distance_m distance_meters db (bus_route bus)
                                   source_stop dest_stop;
                    fare ← _fare_from_distance_m (str_float distance_m);
                    let ticket :=
                      mkTicket (fresh_pk (ticket_id <$> tickets)) (user_id user) (bus_id bus)
                        (stop_name source_stop) (stop_name dest_stop) fare now
                        (Some (now + thirty_minutes)) in
                    Return (RedirectTicketView (ticket_id ticket), tickets ++ [ticket])
              | _, _ => Return (RedirectPassengerSelect otp "Stop not found", tickets)
              end
          end
    end.

End Booking.

(** An executable stand-in for the numeral of a float, used to run the two
    views on concrete tables: the distance in whole millimetres, three
    places after the point. *)
Definition millimetre_numeral (distance_m : Q) : distance_arg :=
  Numeral (Dec.Finite (Qfloor (distance_m * 1000)) (-3)).

(** ** Accounts and assignments (views.py, 218-233 and 486-540) *)

Record register_request : Type := mkRegisterRequest {
  register_is_post : bool;
  register_username : option string;
  register_password : option string;
  register_confirm_password : option string }.

Inductive register_response : Type :=
| RegisterForm (error : option string)
| RedirectLogin.

(** [User.objects.create_user(username=username, password=password, role=role)] *)
Definition create_user (users : list User) (username role : string) : list User :=
  users ++ [mkUser (fresh_pk (user_id <$> users)) username role].

(** [User.objects.filter(username=username).exists()] *)
Definition username_exists (users : list User) (username : string) : bool :=
  bool_decide (filter (fun u => user_username u = username) users <> []).

(** [register_view] (views.py, 218-233) *)
Definition register_view (users : list User) (req : register_request)
    : register_response * list User :=
  if register_is_post req then
    let username := strip (or_empty (register_username req)) in
    let password := or_empty (register_password req) in
    let confirm_password := or_empty (register_confirm_password req) in
    if bool_decide (username = "") || bool_decide (password = "") ||
       bool_decide (confirm_password = "")
    then (RegisterForm (Some "Username and password are required"), users)
    else if (String.length password <? 6)%nat
    then (RegisterForm (Some "Password must be at least 6 characters"), users)
    else if negb (bool_decide (password = confirm_password))
    then (RegisterForm (Some "Passwords do not match"), users)
    else if username_exists users username
    then (RegisterForm (Some "Username already exists"), users)
    else (RedirectLogin, create_user users username "passenger")
  else (RegisterForm None, users).

(** What an admin view flashes before it redirects: nothing, an error, or
    the word that the thing is done. *)
Inductive flash : Type :=
| NoMessage
| ErrorMessage (text : string)
| SuccessMessage.

(** The redirect to the admin dashboard, with the message flashed. *)
Inductive admin_redirect : Type :=
| RedirectAdminDashboard (message : flash).

(** [register_driver] (views.py, 486-509), [user] being the one logged
    in. *)
Definition register_driver (users : list User) (user : User) (req : register_request)
    : admin_redirect * list User :=
  if negb (bool_decide (user_role user = "admin"))
  then (RedirectAdminDashboard (ErrorMessage "Admin only"), users)
  else if negb (register_is_post req) then (RedirectAdminDashboard NoMessage, users)
  else
    let username := strip (or_empty (register_username req)) in
    let password := or_empty (register_password req) in
    if bool_decide (username = "") || bool_decide (password = "")
    then (RedirectAdminDashboard (ErrorMessage "Missing fields"), users)
    else if (String.length password <? 4)%nat
    then (RedirectAdminDashboard (ErrorMessage "Password must be at least 4 characters"), users)
    else if username_exists users username
    then (RedirectAdminDashboard (ErrorMessage "Username already exists"), users)
    else (RedirectAdminDashboard SuccessMessage, create_user users username "driver").

Record assign_request : Type := mkAssignRequest {
  assign_is_post : bool;
  assign_driver_id : option string;
  assign_bus_id : option string }.

(** [.update(active=False, end_time=now)] on one row. *)
Definition end_assignment (now : Z) (a : DriverBusAssignment) : DriverBusAssignment :=
  mkDriverBusAssignment (asg_id a) (asg_user a) (asg_bus a) false (asg_start_time a) (Some now).

(** [assign_driver_bus] (views.py, 512-540), [user] being the one logged
    in. *)
Definition assign_driver_bus (db : DB) (users : list User) (user : User)
    (req : assign_request) (now : Z) : admin_redirect * DB :=
  if negb (bool_decide (user_role user = "admin"))
  then (RedirectAdminDashboard (ErrorMessage "Admin only"), db)
  else if negb (assign_is_post req) then (RedirectAdminDashboard NoMessage, db)
  else
    let driver_id := _to_int (assign_driver_id req) (Some 1) None in
    let bus_id := _to_int (assign_bus_id req) (Some 1) None in
    match driver_id, bus_id with
    | Some driver_id, Some bus_id =>
        if (driver_id =? 0) || (bus_id =? 0)
        then (RedirectAdminDashboard (ErrorMessage "Select a driver and a bus"), db)
        else
          match first_by_pk user_id
                  (filter (fun u => user_id u = driver_id /\ user_role u = "driver") users) with
          | None => (RedirectAdminDashboard (ErrorMessage "Driver not found"), db)
          | Some driver =>
              match get_bus db bus_id with
              | None => (RedirectAdminDashboard (ErrorMessage "Bus not found"), db)
              | Some bus =>
                  let ended :=
                    (fun a => if decide (asg_user a = user_id driver /\ is_active_assignment a)
                              then end_assignment now a else a) <$> db_assignments db in
                  (RedirectAdminDashboard SuccessMessage,
                   (create_assignment (with_assignments ended db) driver bus now).1)
              end
          end
    | _, _ => (RedirectAdminDashboard (ErrorMessage "Select a driver and a bus"), db)
    end.

(** * Facts about the decimal arithmetic *)

Section DecimalFacts.
Local Open Scope Z_scope.
Import Dec.

Lemma pow10_pos (k : Z) : 0 <= k -> 0 < 10 ^ k.
Proof. intros Hk. apply Z.pow_pos_nonneg; lia. Qed.

Lemma Qpow10_pos (e : Z) : (0 < 10 ^ e)%Q.
Proof. apply Qpower_0_lt. reflexivity. Qed.

Lemma to_Q_Qpower (c e : Z) : (to_Q c e == inject_Z c * 10 ^ e)%Q.
Proof.
  unfold to_Q. destruct (Z.leb_spec 0 e) as [He|He].
  - rewrite inject_Z_mult, Zpower_Qpower by lia. reflexivity.
  - rewrite Qmake_Qdiv, Z2Pos.id by (apply pow10_pos; lia).
    rewrite Zpower_Qpower, Qpower_opp by lia.
    unfold Qdiv. rewrite Qinv_involutive. reflexivity.
Qed.

(** A coefficient aligned to a smaller exponent denotes the same number. *)
Lemma to_Q_align (c e m : Z) :
  m <= e -> (inject_Z (c * 10 ^ (e - m)) * 10 ^ m == to_Q c e)%Q.
Proof.
  intros Hm. rewrite to_Q_Qpower, inject_Z_mult, Zpower_Qpower by lia.
  rewrite <- Qmult_assoc, <- Qpower_plus by discriminate.
  replace (e - m + m) with e by lia. reflexivity.
Qed.

Lemma le_finite (c1 e1 c2 e2 : Z) :
  le (Finite c1 e1) (Finite c2 e2) = Return (Qle_bool (to_Q c1 e1) (to_Q c2 e2)).
Proof.
  unfold le. f_equal. apply eq_true_iff_eq.
  rewrite Z.leb_le, Qle_bool_iff.
  set (m := Z.min e1 e2).
  rewrite <- (to_Q_align c1 e1 m), <- (to_Q_align c2 e2 m) by lia.
  rewrite Zle_Qle. symmetry. apply Qmult_le_r, Qpow10_pos.
Qed.

Lemma fix_exact (c e : Z) : Z.abs c < 10 ^ prec -> fix_ c e = Finite c e.
Proof.
  intros H. unfold fix_. destruct (Z.ltb_spec (Z.abs c) (10 ^ prec)); [reflexivity | lia].
Qed.

Lemma add_finite (c1 e1 c2 e2 : Z) :
  let m := Z.min e1 e2 in
  let x := c1 * 10 ^ (e1 - m) + c2 * 10 ^ (e2 - m) in
  Z.abs x < 10 ^ prec ->
  add (Finite c1 e1) (Finite c2 e2) = Return (Finite x m) /\
  (to_Q x m == to_Q c1 e1 + to_Q c2 e2)%Q.
Proof.
  intros m x Hx. split.
  - unfold add. fold m. fold x. rewrite fix_exact by assumption. reflexivity.
  - rewrite <- (to_Q_align c1 e1 m), <- (to_Q_align c2 e2 m) by lia.
    rewrite (to_Q_Qpower x m). unfold x. rewrite inject_Z_plus. ring.
Qed.

Lemma strip_zeros_spec (n : nat) (c e : Z) :
  (to_Q (strip_zeros n c e).1 (strip_zeros n c e).2 == to_Q c e)%Q /\
  Z.abs (strip_zeros n c e).1 <= Z.abs c.
Proof.
  revert c e. induction n as [|n IH]; intros c e; simpl.
  - split; [reflexivity | lia].
  - destruct (Z.eqb_spec (c mod 10) 0) as [Hmod|Hmod]; simpl; [|split; [reflexivity | lia]].
    destruct (Z.eqb_spec c 0) as [Hc|Hc]; simpl; [split; [reflexivity | lia]|].
    destruct (IH (c / 10) (e + 1)) as [Hv Ha]. split.
    + rewrite Hv, !to_Q_Qpower.
      rewrite Qpower_plus by discriminate.
      assert (Hc10 : c = c / 10 * 10) by (rewrite (Z.div_mod c 10) at 1; lia).
      rewrite Hc10 at 2. rewrite inject_Z_mult. change (10 ^ 1)%Q with (inject_Z 10). ring.
    + etransitivity; [exact Ha|]. apply Z.abs_le. 
      pose proof (Z.div_mod c 10). lia.
Qed.

Lemma truediv_1000_finite (c e : Z) :
  Z.abs c < 10 ^ prec ->
  exists c' e', truediv_1000 (Finite c e) = Return (Finite c' e') /\
    (to_Q c' e' == to_Q c e / 1000)%Q /\ Z.abs c' < 10 ^ prec.
Proof.
  intros Hc. unfold truediv_1000.
  destruct (strip_zeros_spec 3 c (e - 3)) as [Hv Ha].
  destruct (strip_zeros 3 c (e - 3)) as [c' e'] eqn:Hs. cbn [fst snd] in *.
  exists c', e'. split; [|split].
  - rewrite fix_exact by lia. reflexivity.
  - rewrite Hv, !to_Q_Qpower. replace (e - 3) with (e + -3) by lia.
    rewrite Qpower_plus by discriminate.
    change (10 ^ (-3))%Q with (/ 1000)%Q. unfold Qdiv. ring.
  - lia.
Qed.

Lemma ndigits_aux_le (fuel : nat) (n k : Z) :
  1 <= k -> n < 10 ^ k -> ndigits_aux fuel n <= k.
Proof.
  revert n k. induction fuel as [|fuel IH]; intros n k Hk Hn; simpl; [lia|].
  destruct (Z.ltb_spec n 10) as [H10|H10]; [lia|].
  assert (2 <= k).
  { destruct (Z.eq_dec k 1) as [->|]; [|lia]. change (10 ^ 1) with 10 in Hn. lia. }
  assert (n / 10 < 10 ^ (k - 1)).
  { apply Z.div_lt_upper_bound; [lia|]. rewrite <- Z.pow_succ_r by lia.
    replace (Z.succ (k - 1)) with k by lia. exact Hn. }
  specialize (IH (n / 10) (k - 1)). lia.
Qed.

Lemma ndigits_le (n k : Z) : 1 <= k -> n < 10 ^ k -> ndigits n <= k.
Proof. apply ndigits_aux_le. Qed.

Lemma ceiling_finite (x m : Z) :
  m < 0 ->
  to_integral_value_ceiling (Finite x m) = Finite (Qceiling (to_Q x m)) 0.
Proof.
  intros Hm. unfold to_integral_value_ceiling, to_Q.
  destruct (Z.leb_spec 0 m); [lia|].
  unfold Qceiling, Qfloor, Qopp. cbn [Qnum Qden].
  rewrite Z2Pos.id by (apply pow10_pos; lia). reflexivity.
Qed.

End DecimalFacts.

(** * Facts about the fare function *)

(** [lra] does not read a division: a quotient by 1000 is shown to it as
    a product. *)
Ltac div1000 d :=
  change (d / 1000)%Q with (d * (1 # 1000))%Q in *.

Section FareFacts.
Local Open Scope Z_scope.
Import Dec.

Lemma bind_Return {A B} (a : A) (k : A -> result B) : (x ← Return a; k x) = k a.
Proof. reflexivity. Qed.

Lemma to_Q_sign (x m : Z) : (0 < to_Q x m)%Q -> 0 < x.
Proof.
  rewrite to_Q_Qpower. intros H.
  rewrite Zlt_Qlt. apply (Qmult_lt_r _ _ (10 ^ m)%Q); [apply Qpow10_pos|].
  rewrite Qmult_0_l. exact H.
Qed.

Lemma add_value (c1 e1 c2 e2 : Z) :
  let m := Z.min e1 e2 in
  (to_Q (c1 * 10 ^ (e1 - m) + c2 * 10 ^ (e2 - m)) m == to_Q c1 e1 + to_Q c2 e2)%Q.
Proof.
  intros m.
  rewrite <- (to_Q_align c1 e1 m), <- (to_Q_align c2 e2 m) by lia.
  rewrite to_Q_Qpower, inject_Z_plus. ring.
Qed.

Lemma base_km_value : (to_Q 25 (-1) == 5 # 2)%Q.
Proof. reflexivity. Qed.

Lemma fare_at_most_base (c e : Z) :
  Z.abs c < 10 ^ prec -> (to_Q c e <= 2500)%Q ->
  _fare_from_distance_m (Numeral (Finite c e)) = Return base_fare.
Proof.
  intros Hc Hd. unfold _fare_from_distance_m, Decimal_of_str.
  rewrite bind_Return.
  destruct (truediv_1000_finite c e Hc) as (c' & e' & -> & Hkm & Hc').
  unfold base_km. rewrite le_finite, bind_Return.
  destruct (Qle_bool (to_Q c' e') (to_Q 25 (-1))) eqn:Hle; [reflexivity|].
  exfalso. apply not_true_iff_false in Hle. apply Hle, Qle_bool_iff.
  rewrite Hkm, base_km_value. div1000 (to_Q c e). lra.
Qed.

Lemma fare_above_base (c e : Z) :
  Z.abs c < 10 ^ prec ->
  (2500 < to_Q c e)%Q -> (to_Q c e < inject_Z (10 ^ 28))%Q ->
  _fare_from_distance_m (Numeral (Finite c e)) =
  Return (Finite ((10 + Qceiling (to_Q c e / 1000 - (5 # 2))) * 100) (-2)).
Proof.
  intros Hc Hlo Hhi. unfold _fare_from_distance_m, Decimal_of_str.
  rewrite bind_Return.
  destruct (truediv_1000_finite c e Hc) as (c' & e' & -> & Hkm & Hc').
  unfold base_km. rewrite le_finite, bind_Return.
  destruct (Qle_bool (to_Q c' e') (to_Q 25 (-1))) eqn:Hle.
  { exfalso. apply Qle_bool_iff in Hle. rewrite Hkm, base_km_value in Hle.
    div1000 (to_Q c e). lra. }
  clear Hle. unfold sub, opp. change (Z.opp 25) with (-25).
  pose proof (add_value c' e' (-25) (-1)) as Hval. cbv zeta in Hval.
  set (m := Z.min e' (-1)) in *.
  set (x := c' * 10 ^ (e' - m) + -25 * 10 ^ (-1 - m)) in *.
  assert (Hxv : (to_Q x m == to_Q c e / 1000 - (5 # 2))%Q).
  { rewrite Hval, Hkm. change (to_Q (-25) (-1)) with (-25 # 10)%Q.
    div1000 (to_Q c e). lra. }
  assert (Hxpos : 0 < x).
  { apply (to_Q_sign x m). rewrite Hxv. div1000 (to_Q c e). lra. }
  assert (Hxb : Z.abs x < 10 ^ prec).
  { destruct (Z.le_gt_cases e' (-1)) as [He|He].
    - assert (Hm : m = e') by (unfold m; lia).
      assert (x <= c'); [|lia].
      unfold x. rewrite Hm, Z.sub_diag, Z.pow_0_r.
      pose proof (pow10_pos (-1 - e') ltac:(lia)). lia.
    - assert (Hm : m = -1) by (unfold m; lia).
      assert (x < 10 ^ 26); [|change (10 ^ prec) with (10 ^ 28); lia].
      rewrite Zlt_Qlt. rewrite Hm, to_Q_Qpower in Hxv.
      change (10 ^ (-1))%Q with (1 # 10)%Q in Hxv.
      change (inject_Z (10 ^ 26)) with (100000000000000000000000000)%Q.
      change (inject_Z (10 ^ 28)) with (10000000000000000000000000000)%Q in Hhi.
      div1000 (to_Q c e). lra. }
  destruct (add_finite c' e' (-25) (-1) Hxb) as [-> _]. fold m. fold x.
  rewrite bind_Return, ceiling_finite by (unfold m; lia).
  rewrite (Qceiling_comp _ _ Hxv).
  set (u := Qceiling (to_Q c e / 1000 - (5 # 2))).
  assert (Hu : 1 <= u <= 10 ^ 25).
  { pose proof (Qle_ceiling (to_Q c e / 1000 - (5 # 2))) as H1.
    pose proof (Qceiling_lt (to_Q c e / 1000 - (5 # 2))) as H2.
    fold u in H1, H2. div1000 (to_Q c e). split.
    - assert (0 < u); [|lia]. rewrite Zlt_Qlt. change (inject_Z 0) with 0%Q. lra.
    - assert (u - 1 < 10 ^ 25); [|lia]. rewrite Zlt_Qlt.
      change (inject_Z (10 ^ 25)) with (10000000000000000000000000)%Q.
      change (inject_Z (10 ^ 28)) with (10000000000000000000000000000)%Q in Hhi.
      lra. }
  unfold to_int. cbn [Z.leb Z.compare]. rewrite bind_Return.
  unfold of_int, base_fare.
  assert (Hsum : Z.abs (10 * 10 ^ (0 - Z.min 0 0) + u * 10 ^ 0 * 10 ^ (0 - Z.min 0 0)) < 10 ^ prec).
  { change (10 ^ prec) with (1000 * 10 ^ 25).
    change (10 ^ (0 - Z.min 0 0)) with 1. change (10 ^ 0) with 1. lia. }
  destruct (add_finite 10 0 (u * 10 ^ 0) 0 Hsum) as [-> _].
  rewrite bind_Return.
  replace (10 * 10 ^ (0 - Z.min 0 0) + u * 10 ^ 0 * 10 ^ (0 - Z.min 0 0)) with (10 + u)
    by (change (10 ^ (0 - Z.min 0 0)) with 1; change (10 ^ 0) with 1; lia).
  change (Z.min 0 0) with 0.
  unfold quantize_cents.
  destruct (Z.eqb_spec (10 + u) 0) as [|_]; [lia|].
  assert (Hnd : ndigits (Z.abs (10 + u)) <= 26).
  { apply ndigits_le; [lia|]. change (10 ^ 26) with (10 * 10 ^ 25). lia. }
  destruct (Z.ltb_spec prec (ndigits (Z.abs (10 + u)) + 0 + 2)) as [Hbad|_].
  { unfold prec in Hbad. lia. }
  change (-2 <=? 0) with true. cbv iota. change (10 ^ (0 + 2)) with 100.
  destruct (Z.ltb_spec (Z.abs ((10 + u) * 100)) (10 ^ prec)) as [_|Hbad]; [reflexivity|].
  exfalso. change (10 ^ prec) with (1000 * 10 ^ 25) in Hbad. lia.
Qed.

End FareFacts.

(** * Facts about querysets *)

Section QueryFacts.
Local Open Scope Z_scope.
Context {A : Type}.
Implicit Types (leb : A -> A -> bool) (l : list A).

Lemma insert_by_perm leb (x : A) l : insert_by leb x l ≡ₚ x :: l.
Proof.
  induction l as [|y l IH]; simpl; [done|].
  destruct (leb x y); [done|]. rewrite IH. apply Permutation_swap.
Qed.

Lemma order_by_perm leb l : order_by leb l ≡ₚ l.
Proof.
  induction l as [|x l IH]; simpl; [done|].
  rewrite insert_by_perm. by rewrite IH.
Qed.

Lemma order_by_elem_of leb l (x : A) : x ∈ order_by leb l <-> x ∈ l.
Proof. by rewrite order_by_perm. Qed.

Lemma order_by_nil leb l : order_by leb l = [] <-> l = [].
Proof.
  split; [|by intros ->].
  intros H. apply Permutation_nil_r. by rewrite <- H, order_by_perm.
Qed.

Lemma head_order_by_elem_of leb l (x : A) : head (order_by leb l) = Some x -> x ∈ l.
Proof.
  intros H. apply (order_by_elem_of leb). apply head_Some in H as [l' ->]. left.
Qed.

Lemma head_order_by_None leb l : head (order_by leb l) = None -> l = [].
Proof. intros H. apply head_None in H. by apply order_by_nil in H. Qed.

Lemma insert_by_map leb (f : A -> A) (x : A) l :
  (forall a b, leb (f a) (f b) = leb a b) ->
  insert_by leb (f x) (f <$> l) = f <$> insert_by leb x l.
Proof.
  intros Hf. induction l as [|y l IH]; csimpl; [done|].
  rewrite Hf. destruct (leb x y); csimpl; [done|]. by rewrite IH.
Qed.

Lemma order_by_map leb (f : A -> A) l :
  (forall a b, leb (f a) (f b) = leb a b) ->
  order_by leb (f <$> l) = f <$> order_by leb l.
Proof.
  intros Hf. induction l as [|x l IH]; csimpl; [done|].
  rewrite IH. by apply insert_by_map.
Qed.

Lemma insert_by_sorted leb (x : A) l :
  (forall a b, leb a b = false -> leb b a = true) ->
  Sorted (fun a b => leb a b = true) l ->
  Sorted (fun a b => leb a b = true) (insert_by leb x l).
Proof.
  intros Htot. induction l as [|y l IH]; intros Hs; simpl.
  - by repeat constructor.
  - destruct (leb x y) eqn:Hxy.
    + constructor; [done|]. by constructor.
    + apply Sorted_inv in Hs as [Hs Hhd]. constructor; [by apply IH|].
      destruct l as [|z l]; simpl.
      * constructor. by apply Htot.
      * destruct (leb x z); constructor; [by apply Htot|].
        by apply HdRel_inv in Hhd.
Qed.

Lemma order_by_sorted leb l :
  (forall a b, leb a b = false -> leb b a = true) ->
  Sorted (fun a b => leb a b = true) (order_by leb l).
Proof.
  intros Htot. induction l as [|x l IH]; simpl; [constructor|].
  by apply insert_by_sorted.
Qed.

End QueryFacts.

Lemma Sorted_weaken {A} (R S : A -> A -> Prop) (l : list A) :
  (forall a b, R a b -> S a b) -> Sorted R l -> Sorted S l.
Proof.
  intros HRS. induction 1 as [|x l Hl IH Hhd]; constructor; [done|].
  destruct Hhd; constructor. by apply HRS.
Qed.

Lemma update_rows_elem_of {A} (pk : A -> Z) (id : Z) (f : A -> A) (rows : list A) (r : A) :
  r ∈ update_rows pk id f rows <->
  exists r0, r0 ∈ rows /\ r = (if decide (pk r0 = id) then f r0 else r0).
Proof.
  unfold update_rows. rewrite list_elem_of_fmap. split.
  - intros (r0 & -> & Hr0). by exists r0.
  - intros (r0 & Hr0 & ->). by exists r0.
Qed.

Lemma filter_update_rows {A} (pk : A -> Z) (id : Z) (f : A -> A) (rows : list A) :
  (forall r, pk (f r) = pk r) ->
  filter (fun r => pk r = id) (update_rows pk id f rows) =
  f <$> filter (fun r => pk r = id) rows.
Proof.
  intros Hf. unfold update_rows. induction rows as [|r rows IH]; [done|].
  rewrite fmap_cons. destruct (decide (pk r = id)) as [Hr|Hr].
  - rewrite !filter_cons_True by (by rewrite ?Hf). by rewrite fmap_cons, IH.
  - by rewrite !filter_cons_False.
Qed.

Lemma lex_leb_total (k1 k2 k1' k2' : Z) :
  lex_leb k1 k2 k1' k2' = false -> lex_leb k1' k2' k1 k2 = true.
Proof. unfold lex_leb. lia. Qed.

Lemma first_by_pk_elem_of {A} (pk : A -> Z) (rows : list A) (r : A) :
  first_by_pk pk rows = Some r -> r ∈ rows.
Proof. apply head_order_by_elem_of. Qed.

Lemma get_bus_Some (db : DB) (id : Z) (bus : Bus) :
  get_bus db id = Some bus -> bus ∈ db_buses db /\ bus_id bus = id.
Proof.
  intros H. apply first_by_pk_elem_of in H. by apply list_elem_of_filter in H as [? ?].
Qed.

Lemma get_bus_update (db : DB) (id : Z) (bus : Bus) (f : Bus -> Bus) (buses : list Bus) :
  (forall b, bus_id (f b) = bus_id b) ->
  first_by_pk bus_id (filter (fun b => bus_id b = id) buses) = Some bus ->
  first_by_pk bus_id (filter (fun b => bus_id b = id) (update_rows bus_id id f buses)) =
  Some (f bus).
Proof.
  intros Hf H. unfold first_by_pk in *.
  rewrite filter_update_rows by done.
  rewrite order_by_map by (intros; by rewrite !Hf).
  destruct (order_by _ (filter _ buses)) as [|b l]; simplify_eq/=. done.
Qed.

Lemma latest_location_Some (db : DB) (bus : Z) (loc : BusLiveLocation) :
  latest_location db bus = Some loc -> loc ∈ db_locations db /\ loc_bus loc = bus.
Proof.
  intros H. apply head_order_by_elem_of in H. by apply list_elem_of_filter in H as [? ?].
Qed.

Lemma open_trip_of_Some (db : DB) (bus : Z) (t : BusTrip) :
  open_trip_of db bus = Some t -> t ∈ db_trips db /\ is_open_trip_of bus t.
Proof.
  intros H. apply head_order_by_elem_of in H. by apply list_elem_of_filter in H as [? ?].
Qed.

Lemma open_trip_of_None (db : DB) (bus : Z) :
  open_trip_of db bus = None -> open_trips db bus = 0%nat.
Proof. intros H. apply head_order_by_None in H. unfold open_trips. by rewrite H. Qed.

(** * Facts about the route of a bus *)

Lemma Qltb_lt (x y : Q) : Qltb x y = true <-> (x < y)%Q.
Proof.
  unfold Qltb. rewrite negb_true_iff, <- not_true_iff_false, Qle_bool_iff.
  split; [apply Qnot_le_lt | apply Qlt_not_le].
Qed.

Lemma Qltb_ge (x y : Q) : Qltb x y = false <-> (y <= x)%Q.
Proof. unfold Qltb. by rewrite negb_false_iff, Qle_bool_iff. Qed.

Section RouteFacts.
Local Open Scope Z_scope.
Variable distance_meters : Q -> Q -> Q -> Q -> Q.

Local Abbreviation dist a b :=
  (distance_meters (stop_latitude a) (stop_longitude a) (stop_latitude b) (stop_longitude b)).

Lemma stop_leb_order (s t : Stop) : stop_leb s t = true -> stop_order s <= stop_order t.
Proof. unfold stop_leb, lex_leb. lia. Qed.

Lemma stop_leb_trans (s t u : Stop) :
  stop_leb s t = true -> stop_leb t u = true -> stop_leb s u = true.
Proof. unfold stop_leb, lex_leb. lia. Qed.

(** The stops of a route come in the order of their [order] column. *)
Lemma route_stops_sorted (db : DB) (route : Z) :
  StronglySorted (fun s t => stop_order s <= stop_order t) (route_stops_ordered db route).
Proof.
  unfold route_stops_ordered.
  pose proof (order_by_sorted stop_leb
    (filter (fun s => stop_route s = route) (db_stops db))
    (fun a b => lex_leb_total _ _ _ _)) as Hs.
  apply Sorted_StronglySorted in Hs; [|intros s t u; apply stop_leb_trans].
  induction Hs as [|s l Hs IH Hall]; constructor; [done|].
  eapply Forall_impl; [exact Hall|]. intros t. apply stop_leb_order.
Qed.

Lemma route_stops_elem_of (db : DB) (route : Z) (s : Stop) :
  s ∈ route_stops_ordered db route <-> s ∈ db_stops db /\ stop_route s = route.
Proof.
  unfold route_stops_ordered. rewrite order_by_elem_of, list_elem_of_filter. tauto.
Qed.

Lemma filter_all {A} (P : A -> Prop) `{!forall x, Decision (P x)} (l : list A) :
  Forall P l -> filter P l = l.
Proof.
  induction 1 as [|x l Hx _ IH]; [done|]. by rewrite filter_cons_True, IH.
Qed.

(** On a route in order, the stops past a given order are a suffix. *)
Lemma later_stops_suffix (k : Z) (l : list Stop) :
  StronglySorted (fun s t => stop_order s <= stop_order t) l ->
  exists pre, l = pre ++ filter (fun s => k < stop_order s) l /\
              Forall (fun s => stop_order s <= k) pre.
Proof.
  induction 1 as [|x l Hs IH Hall].
  - by exists [].
  - destruct (decide (k < stop_order x)) as [Hx|Hx].
    + exists []. split; [|constructor]. simpl. symmetry. apply filter_all.
      constructor; [done|]. eapply Forall_impl; [exact Hall|]. simpl. lia.
    + destruct IH as (pre & Hl & Hpre). exists (x :: pre). split.
      * rewrite filter_cons_False by done. simpl. by rewrite <- Hl.
      * constructor; [lia|done].
Qed.

Lemma fold_add_leg (rest : list Stop) (p : Q) (prev : Stop) :
  ((fold_left (add_leg distance_meters) rest (p, prev)).1 ==
   p + path_length distance_meters (prev :: rest))%Q.
Proof.
  revert p prev. induction rest as [|s rest IH]; intros p prev.
  - simpl. ring.
  - cbn [fold_left add_leg]. rewrite IH.
    change (path_length distance_meters (prev :: s :: rest))
      with (dist prev s + path_length distance_meters (s :: rest))%Q.
    ring.
Qed.

Lemma sum_legs_spec (stops : list Stop) (n i : nat) (total : Q) :
  (i + n < length stops)%nat ->
  exists t, sum_legs distance_meters stops (seq i n) total = Return t /\
    (t == total + path_length distance_meters (take (S n) (drop i stops)))%Q.
Proof.
  revert i total. induction n as [|n IH]; intros i total Hlen.
  - exists total. split; [done|].
    destruct (drop i stops) as [|a l]; simpl; ring.
  - destruct (lookup_lt_is_Some_2 stops i ltac:(lia)) as [a Ha].
    destruct (lookup_lt_is_Some_2 stops (S i) ltac:(lia)) as [b Hb].
    destruct (IH (S i) (total + dist a b)%Q ltac:(lia)) as (t & Ht & Hv).
    exists t. split.
    + cbn [seq sum_legs]. unfold index. rewrite Nat.add_1_r, Ha, Hb. exact Ht.
    + rewrite Hv. rewrite (drop_S _ _ _ Ha), (drop_S _ _ _ Hb).
      rewrite (drop_S _ _ _ Hb) in Hv.
      cbn [take]. 
      change (path_length distance_meters (a :: b :: take n (drop (S (S i)) stops)))
        with (dist a b + path_length distance_meters (b :: take n (drop (S (S i)) stops)))%Q.
      ring.
Qed.

Lemma id_to_index_snoc (stops : list Stop) (s : Stop) :
  id_to_index (stops ++ [s]) = <[stop_id s := length stops]> (id_to_index stops).
Proof.
  unfold id_to_index, enumerate. rewrite imap_app, fold_left_app. simpl.
  by rewrite Nat.add_0_r.
Qed.

Lemma id_to_index_lookup (stops : list Stop) (i : nat) (s : Stop) :
  NoDup (stop_id <$> stops) ->
  stops !! i = Some s -> id_to_index stops !! stop_id s = Some i.
Proof.
  revert i s. induction stops as [|x stops IH] using rev_ind; intros i s Hnd Hi.
  - by rewrite lookup_nil in Hi.
  - rewrite id_to_index_snoc.
    rewrite fmap_app in Hnd. apply NoDup_app in Hnd as (Hnd & Hfresh & _).
    destruct (decide (i < length stops)%nat) as [Hlt|Hge].
    + rewrite lookup_app_l in Hi by done.
      rewrite lookup_insert_ne; [by apply IH|].
      intros Heq. apply (Hfresh (stop_id s)).
      * apply list_elem_of_fmap. exists s. split; [done|].
        by apply list_elem_of_lookup_2 in Hi.
      * rewrite <- Heq. simpl. left.
    + rewrite lookup_app_r in Hi by lia.
      destruct (i - length stops)%nat as [|j] eqn:Hj; [|by destruct j].
      simpl in Hi. simplify_eq. replace i with (length stops) by lia.
      apply lookup_insert_eq.
Qed.

End RouteFacts.

(** * Facts about the location tracker *)

Section TrackerFacts.
Local Open Scope Z_scope.
Variable distance_meters : Q -> Q -> Q -> Q -> Q.

Local Abbreviation dist_to lat lng s :=
  (distance_meters lat lng (stop_latitude s) (stop_longitude s)).

(** The scan keeps a stop that no stop seen so far beats. *)
Lemma nearest_scan (lat lng : Q) (stops : list Stop) (acc : option (Stop * Q)) :
  match fold_left (nearer distance_meters lat lng) stops acc with
  | None => acc = None /\ stops = []
  | Some (s, d) =>
      (acc = Some (s, d) \/ (s ∈ stops /\ d = dist_to lat lng s)) /\
      (forall t, t ∈ stops -> (d <= dist_to lat lng t)%Q) /\
      (forall s0 d0, acc = Some (s0, d0) -> (d <= d0)%Q)
  end.
Proof.
  revert acc. induction stops as [|x stops IH]; intros acc.
  - simpl. destruct acc as [[s d]|]; [|done].
    split; [by left|]. split; [by intros t Ht; apply elem_of_nil in Ht|].
    intros s0 d0 [= <- <-]. apply Qle_refl.
  - cbn [fold_left]. specialize (IH (nearer distance_meters lat lng acc x)).
    destruct (fold_left _ stops _) as [[s d]|].
    + destruct IH as (Hsrc & Hmin & Hacc). unfold nearer in Hsrc, Hacc.
      destruct acc as [[s0 d0]|].
      * destruct (Qltb (dist_to lat lng x) d0) eqn:Hlt.
        -- apply Qltb_lt in Hlt. specialize (Hacc _ _ eq_refl).
           split; [|split].
           ++ right. destruct Hsrc as [[= <- <-]|[? ?]]; split; try done; [left|by right].
           ++ intros t [->|Ht]%elem_of_cons; [done|by apply Hmin].
           ++ intros ? ? [= <- <-].
              eapply Qle_trans; [exact Hacc | by apply Qlt_le_weak].
        -- apply Qltb_ge in Hlt. specialize (Hacc _ _ eq_refl).
           split; [|split].
           ++ destruct Hsrc as [?|[? ?]]; [by left|right; split; [by right|done]].
           ++ intros t [->|Ht]%elem_of_cons; [|by apply Hmin].
              eapply Qle_trans; [exact Hacc | exact Hlt].
           ++ by intros ? ? [= <- <-].
      * specialize (Hacc _ _ eq_refl). split; [|split].
        -- right. destruct Hsrc as [[= <- <-]|[? ?]]; split; try done; [left|by right].
        -- intros t [->|Ht]%elem_of_cons; [done|by apply Hmin].
        -- done.
    + destruct IH as [Hacc _]. unfold nearer in Hacc. by repeat case_match.
Qed.

Lemma nearest_scan_None (lat lng : Q) (stops : list Stop) :
  match fold_left (nearer distance_meters lat lng) stops None with
  | None => stops = []
  | Some (s, d) =>
      s ∈ stops /\ d = dist_to lat lng s /\
      forall t, t ∈ stops -> (d <= dist_to lat lng t)%Q
  end.
Proof.
  pose proof (nearest_scan lat lng stops None) as H.
  destruct (fold_left _ stops None) as [[s d]|]; [|by destruct H].
  destruct H as ([?|[? ?]] & ? & _); done.
Qed.

End TrackerFacts.

(** * Facts about driver trips *)

Section TripFacts.
Local Open Scope Z_scope.

Lemma access_keeps_trips (db : DB) (user : User) (bus : Bus) (now : Z) :
  db_trips (_driver_can_access_bus db user bus now).1.2 = db_trips db.
Proof.
  unfold _driver_can_access_bus, create_assignment.
  repeat (case_decide || case_match); reflexivity.
Qed.

Lemma legacy_start_time_keeps_trips (db : DB) (bus : Bus) (now : Z) :
  db_trips (legacy_start_time db bus now).1.2 = db_trips db /\
  bus_id (legacy_start_time db bus now).1.1.2 = bus_id bus.
Proof. unfold legacy_start_time. by case_match. Qed.

Lemma open_trips_close (db : DB) (t : BusTrip) (now : Z) (b : Z) :
  (open_trips (close_trip db t now).1 b <= open_trips db b)%nat.
Proof.
  unfold open_trips, close_trip, update_rows. cbn [fst db_trips with_trips].
  induction (db_trips db) as [|r rows IH]; [done|].
  rewrite fmap_cons, !filter_cons.
  destruct (decide (trip_id r = trip_id t)).
  - rewrite decide_False by (by intros [_ ?]).
    case_decide; simpl; lia.
  - case_decide; simpl; lia.
Qed.

Lemma open_trips_close_own (db : DB) (t : BusTrip) (now : Z) (b : Z) :
  (open_trips db b <= 1)%nat ->
  t ∈ db_trips db -> is_open_trip_of b t ->
  open_trips (close_trip db t now).1 b = 0%nat.
Proof.
  unfold open_trips, close_trip. cbn [fst db_trips with_trips].
  intros Hle Hin Hopen.
  destruct (filter _ (update_rows _ _ _ _)) as [|r' l'] eqn:Hf; [done|]. exfalso.
  assert (Hr' : r' ∈ r' :: l') by left.
  rewrite <- Hf in Hr'. clear Hf l'.
  apply list_elem_of_filter in Hr' as [Hopen' Hr'].
  apply update_rows_elem_of in Hr' as (r & Hr & ->).
  destruct (decide (trip_id r = trip_id t)) as [Heq|Hne].
  { by destruct Hopen' as [_ ?]. }
  assert (Ht : t ∈ filter (is_open_trip_of b) (db_trips db))
    by (by apply list_elem_of_filter).
  assert (Hr2 : r ∈ filter (is_open_trip_of b) (db_trips db))
    by (by apply list_elem_of_filter).
  destruct (filter (is_open_trip_of b) (db_trips db)) as [|z [|z' l]];
    [by apply elem_of_nil in Ht| |simpl in Hle; lia].
  apply list_elem_of_singleton in Ht, Hr2. congruence.
Qed.

Lemma open_trips_create (db : DB) (bus : Bus) (start : Z) (e : option Z) (b : Z) :
  open_trips (create_trip db bus start e).1.2 b =
  (open_trips db b + (if decide (bus_id bus = b /\ e = None) then 1 else 0))%nat.
Proof.
  unfold open_trips, create_trip. cbn [fst snd db_trips with_trips].
  rewrite filter_app, length_app. f_equal.
  rewrite filter_cons, filter_nil. unfold is_open_trip_of at 1. simpl.
  repeat case_decide; first [done | exfalso; tauto].
Qed.


End TripFacts.

Section TripOperations.
Local Open Scope Z_scope.

Lemma start_trip_open_trips (db : DB) (user : User) (id now : Z) (b : Z) :
  (open_trips db b <= 1)%nat ->
  (open_trips (start_trip db user id now).1.2 b <= 1)%nat /\
  (b = id -> (start_trip db user id now).1.1 = RedirectDashboard None ->
   open_trips (start_trip db user id now).1.2 b = 1%nat).
Proof.
  intros Hle. unfold start_trip.
  destruct (get_bus db id) as [bus|] eqn:Hbus; [|done].
  apply get_bus_Some in Hbus as [_ Hid].
  pose proof (access_keeps_trips db user bus now) as Htr.
  destruct (_driver_can_access_bus db user bus now) as [[allowed db0] w0].
  cbn [fst snd] in Htr.
  assert (Hsame : forall x, open_trips db0 x = open_trips db x)
    by (intros x; unfold open_trips; by rewrite Htr).
  destruct allowed; cbn [negb fst snd]; [|by rewrite Hsame].
  destruct (open_trip_of db0 (bus_id bus)) as [t|] eqn:Hopen.
  - apply open_trip_of_Some in Hopen as [Hin Ht].
    pose proof (open_trips_close db0 t now b) as Hclose.
    pose proof (fun H => open_trips_close_own db0 t now (bus_id bus) H Hin Ht) as Hown.
    destruct (close_trip db0 t now) as [db1 w1]. cbn [fst] in Hclose, Hown.
    pose proof (open_trips_create db1 bus now None b) as Hc.
    destruct (create_trip db1 bus now None) as [[trip db2] w2].
    cbn [fst snd] in *. change (open_trips (with_buses ?x db2) b) with (open_trips db2 b).
    rewrite Hc, Hsame in *. case_decide as Hb.
    + destruct Hb as [<- _]. rewrite Hown by done. split; [lia|done].
    + split; [lia|]. intros ->. exfalso. by apply Hb.
  - apply open_trip_of_None in Hopen.
    pose proof (open_trips_create db0 bus now None b) as Hc.
    destruct (create_trip db0 bus now None) as [[trip db2] w2].
    cbn [fst snd] in *. change (open_trips (with_buses ?x db2) b) with (open_trips db2 b).
    rewrite Hc, Hsame in *. case_decide as Hb.
    + destruct Hb as [<- _]. rewrite Hopen. split; [lia|done].
    + split; [lia|]. intros ->. exfalso. by apply Hb.
Qed.

Lemma end_trip_open_trips (db : DB) (user : User) (id now : Z) (b : Z) :
  (open_trips db b <= 1)%nat ->
  (open_trips (end_trip db user id now).1.2 b <= open_trips db b)%nat /\
  (b = id -> (end_trip db user id now).1.1 = RedirectDashboard None ->
   open_trips (end_trip db user id now).1.2 b = 0%nat).
Proof.
  intros Hle. unfold end_trip.
  destruct (get_bus db id) as [bus|] eqn:Hbus; [|done].
  apply get_bus_Some in Hbus as [_ Hid].
  pose proof (access_keeps_trips db user bus now) as Htr.
  destruct (_driver_can_access_bus db user bus now) as [[allowed db0] w0].
  cbn [fst snd] in Htr.
  assert (Hsame : forall x, open_trips db0 x = open_trips db x)
    by (intros x; unfold open_trips; by rewrite Htr).
  destruct allowed; cbn [negb fst snd]; [|by rewrite Hsame].
  destruct (open_trip_of db0 (bus_id bus)) as [t|] eqn:Hopen.
  - apply open_trip_of_Some in Hopen as [Hin Ht].
    pose proof (open_trips_close db0 t now b) as Hclose.
    pose proof (fun H => open_trips_close_own db0 t now (bus_id bus) H Hin Ht) as Hown.
    destruct (close_trip db0 t now) as [db1 w1]. cbn [fst snd] in *.
    change (open_trips (with_buses ?x db1) b) with (open_trips db1 b).
    rewrite Hsame in Hclose. split; [done|].
    intros -> _. rewrite <- Hid. apply Hown. by rewrite Hsame, Hid.
  - apply open_trip_of_None in Hopen. rewrite Hsame in Hopen.
    destruct (bus_trip_active bus).
    + pose proof (legacy_start_time_keeps_trips db0 bus now) as [Htr' Hid'].
      destruct (legacy_start_time db0 bus now) as [[[start bus'] db'] w].
      cbn [fst snd] in Htr', Hid'.
      pose proof (open_trips_create db' bus' start (Some now) b) as Hc.
      destruct (create_trip db' bus' start (Some now)) as [[trip db''] w'].
      cbn [fst snd] in *.
      change (open_trips (with_buses ?x db'') b) with (open_trips db'' b).
      rewrite decide_False in Hc by (by intros [_ ?]).
      assert (Hsame' : open_trips db' b = open_trips db b)
        by (rewrite <- Hsame; unfold open_trips; by rewrite Htr').
      rewrite Hc, Hsame'. split; [lia|]. intros -> _. rewrite <- Hid, Hopen. done.
    + cbn [fst snd].
      change (open_trips (with_buses ?x db0) b) with (open_trips db0 b).
      rewrite Hsame. split; [lia|]. intros -> _. by rewrite <- Hid.
Qed.


Lemma create_assignment_keeps_trips (db : DB) (user : User) (bus : Bus) (now : Z) :
  db_trips (create_assignment db user bus now).1 = db_trips db.
Proof. done. Qed.


Lemma close_trip_closes (db : DB) (t : BusTrip) (now : Z) :
  t ∈ db_trips db ->
  set_trip_end_time now t ∈ db_trips (close_trip db t now).1.
Proof.
  intros Hin. unfold close_trip. cbn [fst db_trips with_trips].
  apply update_rows_elem_of. exists t. split; [done|]. by rewrite decide_True.
Qed.


Lemma end_trip_closes_open_trip (db : DB) (user : User) (id now : Z) (t : BusTrip) :
  open_trip_of db id = Some t ->
  (end_trip db user id now).1.1 = RedirectDashboard None ->
  set_trip_end_time now t ∈ db_trips (end_trip db user id now).1.2.
Proof.
  intros Hopen. unfold end_trip.
  destruct (get_bus db id) as [bus|] eqn:Hbus; [|done].
  apply get_bus_Some in Hbus as [_ Hid].
  pose proof (access_keeps_trips db user bus now) as Htr.
  destruct (_driver_can_access_bus db user bus now) as [[allowed db0] w0].
  cbn [fst snd] in Htr.
  destruct allowed; cbn [negb fst snd]; [|done].
  assert (Hopen0 : open_trip_of db0 (bus_id bus) = Some t)
    by (unfold open_trip_of in *; by rewrite Htr, Hid).
  rewrite Hopen0. apply open_trip_of_Some in Hopen0 as [Hin _].
  pose proof (close_trip_closes db0 t now Hin) as Hclosed.
  destruct (close_trip db0 t now) as [db1 w1]. cbn [fst] in Hclosed.
  intros _. exact Hclosed.
Qed.

End TripOperations.

(** * The fare rule *)

Section FareClaims.
Local Open Scope Z_scope.
Import Dec.

Lemma to_Q_cents (n : Z) : (to_Q (n * 100) (-2) == inject_Z n)%Q.
Proof. unfold to_Q, Qeq. simpl. lia. Qed.

Lemma float_numeral_prec (c e : Z) : float_numeral c e -> Z.abs c < 10 ^ prec.
Proof. intros [Hc _]. change (10 ^ prec) with (10 ^ 17 * 10 ^ 11). lia. Qed.

(** C1. A distance of at most 2500 m costs 10; a longer one costs 10 plus
    one unit for every kilometre begun beyond 2.5 km, that is
    10 + ceil(d/1000 - 2.5), with two decimal places. The distance is the
    numeral [c * 10^e] that [str] prints for the float, below 10^28 m. So
    2400 m cost 10, 3400 m cost 11.00, and 2501 m, one metre past the base,
    already cost 11.00. *)
Theorem fare_by_started_kilometre (c e : Z) :
  float_numeral c e ->
  ((to_Q c e <= 2500)%Q ->
     _fare_from_distance_m (Numeral (Finite c e)) = Return (Finite 10 0)) /\
  ((2500 < to_Q c e)%Q -> (to_Q c e < inject_Z (10 ^ 28))%Q ->
     exists cents,
       _fare_from_distance_m (Numeral (Finite c e)) = Return (Finite cents (-2)) /\
       (to_Q cents (-2) == 10 + inject_Z (Qceiling (to_Q c e / 1000 - (5 # 2))))%Q) /\
  _fare_from_distance_m (Numeral (Finite 24000 (-1))) = Return (Finite 10 0) /\
  _fare_from_distance_m (Numeral (Finite 34000 (-1))) = Return (Finite 1100 (-2)) /\
  _fare_from_distance_m (Numeral (Finite 25010 (-1))) = Return (Finite 1100 (-2)).
Proof.
  intros Hfl. pose proof (float_numeral_prec c e Hfl) as Hc.
  split; [|split; [|by vm_compute]].
  - intros Hd. by apply fare_at_most_base.
  - intros Hlo Hhi. eexists. split; [by apply fare_above_base|].
    rewrite to_Q_cents, inject_Z_plus. reflexivity.
Qed.

Lemma fare_by_started_kilometre_witness :
  exists cents,
    _fare_from_distance_m (Numeral (Finite 4200125 (-3))) = Return (Finite cents (-2)) /\
    (to_Q cents (-2) == 10 + inject_Z (Qceiling (to_Q 4200125 (-3) / 1000 - (5 # 2))))%Q.
Proof.
  apply (fare_by_started_kilometre 4200125 (-3)).
  - split; [reflexivity | split; discriminate].
  - reflexivity.
  - reflexivity.
Defined.

(** C8. The fare never goes down when the distance goes up: for two
    distances [d1 <= d2] (numerals of floats, below 10^28 m) both fares
    are returned and the first is at most the second. *)
Theorem fare_monotone (c1 e1 c2 e2 : Z) :
  float_numeral c1 e1 -> float_numeral c2 e2 ->
  (to_Q c1 e1 <= to_Q c2 e2)%Q -> (to_Q c2 e2 < inject_Z (10 ^ 28))%Q ->
  exists a1 x1 a2 x2,
    _fare_from_distance_m (Numeral (Finite c1 e1)) = Return (Finite a1 x1) /\
    _fare_from_distance_m (Numeral (Finite c2 e2)) = Return (Finite a2 x2) /\
    (to_Q a1 x1 <= to_Q a2 x2)%Q.
Proof.
  intros H1 H2 Hle Hhi.
  pose proof (float_numeral_prec _ _ H1) as Hc1.
  pose proof (float_numeral_prec _ _ H2) as Hc2.
  destruct (Qlt_le_dec 2500 (to_Q c2 e2)) as [Hd2|Hd2].
  - pose proof (Qle_ceiling (to_Q c2 e2 / 1000 - (5 # 2))) as Hu2.
    destruct (Qlt_le_dec 2500 (to_Q c1 e1)) as [Hd1|Hd1].
    + do 4 eexists. split; [|split].
      * apply fare_above_base; [done|done|]. by eapply Qle_lt_trans.
      * by apply fare_above_base.
      * rewrite !to_Q_cents, <- Zle_Qle.
        apply Z.add_le_mono_l, Qceiling_resp_le.
        div1000 (to_Q c1 e1). div1000 (to_Q c2 e2). lra.
    + do 4 eexists. split; [|split].
      * by apply fare_at_most_base.
      * by apply fare_above_base.
      * rewrite to_Q_cents, inject_Z_plus. change (to_Q 10 0) with 10%Q.
        change (inject_Z 10) with 10%Q.
        div1000 (to_Q c2 e2). lra.
  - do 4 eexists. split; [|split].
    + apply fare_at_most_base; [done|]. by eapply Qle_trans.
    + by apply fare_at_most_base.
    + apply Qle_refl.
Qed.

Lemma fare_monotone_witness :
  exists a1 x1 a2 x2,
    _fare_from_distance_m (Numeral (Finite 24000 (-1))) = Return (Finite a1 x1) /\
    _fare_from_distance_m (Numeral (Finite 34000 (-1))) = Return (Finite a2 x2) /\
    (to_Q a1 x1 <= to_Q a2 x2)%Q.
Proof.
  apply (fare_monotone 24000 (-1) 34000 (-1)).
  - split; [reflexivity | split; discriminate].
  - split; [reflexivity | split; discriminate].
  - discriminate.
  - reflexivity.
Defined.

(** C7. The fare function does not return for every input, and what it
    returns does not always carry two decimal places: a NaN distance stops
    at the comparison with InvalidOperation, an infinite one at [int] with
    OverflowError, 10^29 m at [quantize] with InvalidOperation; and every
    distance up to 2500 m (here 2400.0), like every refused or negative
    argument, comes back as [Decimal('10')], with no decimal place. *)
Theorem fare_raises_and_base_fare_unquantized :
  _fare_from_distance_m (Numeral NaN) = Raise InvalidOperation /\
  _fare_from_distance_m (Numeral (Infinity false)) = Raise OverflowError /\
  _fare_from_distance_m (Numeral (Finite 1 29)) = Raise InvalidOperation /\
  (exists f, _fare_from_distance_m (Numeral (Finite 24000 (-1))) = Return f /\
             decimal_places f = Some 0) /\
  (exists f, _fare_from_distance_m NotANumeral = Return f /\
             decimal_places f = Some 0) /\
  (exists f, _fare_from_distance_m (Numeral (Finite (-15) (-1))) = Return f /\
             decimal_places f = Some 0).
Proof.
  repeat split; try reflexivity; eexists; split; reflexivity.
Qed.

End FareClaims.

(** * The path along a route *)

Section RouteClaims.
Local Open Scope Z_scope.
Variable distance_meters : Q -> Q -> Q -> Q -> Q.

Local Abbreviation dist a b :=
  (distance_meters (stop_latitude a) (stop_longitude a) (stop_latitude b) (stop_longitude b)).

(** C2. The stops of a route are taken by [order], equal orders by id. When
    the source stands at index [i] and the destination at a larger index
    [j] of that list, the path distance is the sum of the distances between
    neighbours from index [i] to index [j]; when the route has no stop it
    is the direct distance between the two stops given. *)
Theorem route_path_distance_sums_legs (db : DB) (route : Z) (source dest : Stop) :
  let stops := route_stops_ordered db route in
  Sorted (fun s t => stop_order s < stop_order t \/
                     (stop_order s = stop_order t /\ stop_id s <= stop_id t)) stops /\
  (stops = [] ->
   _route_path_distance_m distance_meters db route source dest = Return (dist source dest)) /\
  (forall i j : nat,
     NoDup (stop_id <$> stops) ->
     stops !! i = Some source -> stops !! j = Some dest -> (i < j)%nat ->
     exists total,
       _route_path_distance_m distance_meters db route source dest = Return total /\
       (total == path_length distance_meters (take (S (j - i)) (drop i stops)))%Q).
Proof.
  intros stops. split; [|split].
  - unfold stops, route_stops_ordered.
    eapply Sorted_weaken;
      [|apply (order_by_sorted stop_leb), (fun a b => lex_leb_total _ _ _ _)].
    intros s t. unfold stop_leb, lex_leb. cbv beta. lia.
  - intros Hnil. unfold _route_path_distance_m. fold stops. by rewrite Hnil.
  - intros i j Hnd Hi Hj Hij. unfold _route_path_distance_m. fold stops.
    destruct stops as [|s0 l] eqn:Hstops; [by rewrite lookup_nil in Hi|].
    rewrite <- Hstops in *.
    rewrite (id_to_index_lookup stops i source Hnd Hi).
    rewrite (id_to_index_lookup stops j dest Hnd Hj).
    destruct (Nat.leb_spec j i) as [?|_]; [lia|].
    apply lookup_lt_Some in Hj.
    destruct (sum_legs_spec distance_meters stops (j - i) i 0 ltac:(lia))
      as (t & Ht & Hv).
    exists t. split; [done|]. rewrite Hv. ring.
Qed.

End RouteClaims.

Lemma route_path_distance_sums_legs_witness :
  exists total,
    _route_path_distance_m grid_distance_m example_db 1
      (mkStop 1 1 "S0" 0 0 0) (mkStop 4 1 "S3" 3 (216 # 10000) 0) = Return total /\
    (total == path_length grid_distance_m
                (take 4 (drop 0 (route_stops_ordered example_db 1))))%Q.
Proof.
  destruct (route_path_distance_sums_legs grid_distance_m example_db 1
              (mkStop 1 1 "S0" 0 0 0) (mkStop 4 1 "S3" 3 (216 # 10000) 0))
    as (_ & _ & Hsum).
  apply (Hsum 0%nat 3%nat).
  - apply (bool_decide_unpack _). vm_compute. exact I.
  - reflexivity.
  - reflexivity.
  - lia.
Defined.

(** * The distance that remains on a route *)

Section RemainingClaims.
Local Open Scope Z_scope.
Variable distance_meters : Q -> Q -> Q -> Q -> Q.

Local Abbreviation dist_to lat lng s :=
  (distance_meters lat lng (stop_latitude s) (stop_longitude s)).

Lemma current_stop_of_None (bus : Bus) (stops : list Stop) :
  bus_current_stop bus = None \/ bus_current_stop bus = Some EmptyString \/
  (exists name, bus_current_stop bus = Some name /\
                forall s, s ∈ stops -> stop_name s <> name) ->
  current_stop_of bus stops = None.
Proof.
  unfold current_stop_of. intros [->|[->|(name & -> & Hno)]]; [done|done|].
  case_decide; [done|].
  assert (Hfind : list_find (fun s => stop_name s = name) stops = None).
  { apply list_find_None, Forall_forall. intros s Hs. by apply Hno. }
  by rewrite Hfind.
Qed.

Lemma current_stop_of_Some (bus : Bus) (stops : list Stop)
    (name : string) (i : nat) (current : Stop) :
  bus_current_stop bus = Some name -> name <> EmptyString ->
  stops !! i = Some current -> stop_name current = name ->
  (forall j s, stops !! j = Some s -> (j < i)%nat -> stop_name s <> name) ->
  current_stop_of bus stops = Some current.
Proof.
  intros Hrec Hne Hi Hname Hfirst. unfold current_stop_of. rewrite Hrec.
  rewrite decide_False by done.
  assert (Hfind : list_find (fun s => stop_name s = name) stops = Some (i, current)).
  { apply list_find_Some. split; [done|]. split; [done|]. exact Hfirst. }
  by rewrite Hfind.
Qed.

Lemma filter_none {A} (P : A -> Prop) `{!forall x, Decision (P x)} (l : list A) :
  (forall x, x ∈ l -> ~ P x) -> filter P l = [].
Proof.
  induction l as [|x l IH]; intros Hno; [done|].
  rewrite filter_cons_False by (apply Hno; left).
  apply IH. intros y Hy. apply Hno. by right.
Qed.

(** C6. On a route with stops: a bus with no recorded stop (none, a blank
    one, or a name no stop of the route bears) is headed for the first stop
    of the route, and both distances are the direct distance to it; a bus
    whose current stop has no stop of greater order after it has no next
    stop and both distances are 0; otherwise the next stop is the first one
    of greater order, the distance to it is direct, and the remaining path
    adds to it the stop-to-stop distances from there to the last stop. *)
Theorem remaining_distance_by_current_stop (db : DB) (bus : Bus) (lat lng : Q) :
  let stops := route_stops_ordered db (bus_route bus) in
  let r := _route_remaining_distance_m distance_meters db bus lat lng in
  stops <> [] ->
  ((bus_current_stop bus = None \/ bus_current_stop bus = Some EmptyString \/
    (exists name, bus_current_stop bus = Some name /\
                  forall s, s ∈ stops -> stop_name s <> name)) ->
   exists first, head stops = Some first /\
     r = (Some first, Some (dist_to lat lng first), Some (dist_to lat lng first))) /\
  (forall (name : string) (i : nat) (current : Stop),
     bus_current_stop bus = Some name -> name <> EmptyString ->
     stops !! i = Some current -> stop_name current = name ->
     (forall j s, stops !! j = Some s -> (j < i)%nat -> stop_name s <> name) ->
     ((forall s, s ∈ stops -> stop_order s <= stop_order current) ->
      r = (None, Some 0%Q, Some 0%Q)) /\
     ((exists s, s ∈ stops /\ stop_order current < stop_order s) ->
      exists pre next rest p,
        stops = pre ++ next :: rest /\
        Forall (fun s => stop_order s <= stop_order current) pre /\
        stop_order current < stop_order next /\
        r = (Some next, Some (dist_to lat lng next), Some p) /\
        (p == dist_to lat lng next + path_length distance_meters (next :: rest))%Q)).
Proof.
  intros stops r Hne. split.
  - intros Hnone. apply (current_stop_of_None bus stops) in Hnone.
    unfold r, _route_remaining_distance_m. fold stops.
    destruct stops as [|first l]; [done|]. rewrite Hnone. by exists first.
  - intros name i current Hrec Hname Hi Hcur Hfirst.
    pose proof (current_stop_of_Some bus stops name i current
                  Hrec Hname Hi Hcur Hfirst) as Hsome.
    pose proof (later_stops_suffix (stop_order current) stops
                  (route_stops_sorted db (bus_route bus))) as (pre & Hsplit & Hpre).
    unfold r, _route_remaining_distance_m. fold stops.
    destruct stops as [|first l] eqn:Hstops; [done|]. rewrite <- Hstops in *.
    rewrite Hsome. split.
    + intros Hlast. rewrite filter_none; [done|]. intros s Hs. specialize (Hlast s Hs). lia.
    + intros (s & Hs & Hgt).
      destruct (filter (fun s => stop_order current < stop_order s) stops)
        as [|next rest] eqn:Hfilter.
      { exfalso. assert (Hin : s ∈ filter (fun s => stop_order current < stop_order s) stops)
          by (by apply list_elem_of_filter).
        rewrite Hfilter in Hin. by apply elem_of_nil in Hin. }
      assert (Hnext : next ∈ filter (fun s => stop_order current < stop_order s) stops)
        by (rewrite Hfilter; left).
      apply list_elem_of_filter in Hnext as [Hnext _].
      exists pre, next, rest. eexists. split; [done|]. split; [done|]. split; [done|].
      split; [reflexivity|]. apply fold_add_leg.
Qed.

End RemainingClaims.

Lemma remaining_distance_by_current_stop_witness :
  exists pre next rest p,
    route_stops_ordered example_db 1 = pre ++ next :: rest /\
    Forall (fun s => (stop_order s <= 2)%Z) pre /\
    (2 < stop_order next)%Z /\
    _route_remaining_distance_m grid_distance_m example_db
      (set_current_stop "S2" example_bus) (19 # 1000) 0 =
      (Some next, Some (grid_distance_m (19 # 1000) 0 (stop_latitude next) (stop_longitude next)),
       Some p) /\
    (p == grid_distance_m (19 # 1000) 0 (stop_latitude next) (stop_longitude next) +
          path_length grid_distance_m (next :: rest))%Q.
Proof.
  destruct (remaining_distance_by_current_stop grid_distance_m example_db
              (set_current_stop "S2" example_bus) (19 # 1000) 0) as [_ Hcur].
  - discriminate.
  - apply (Hcur "S2"%string 2%nat (mkStop 3 1 "S2" 2 (18 # 1000) 0)).
    + reflexivity.
    + discriminate.
    + reflexivity.
    + reflexivity.
    + intros j s Hj Hlt.
      destruct j as [|[|j]]; [| |lia]; vm_compute in Hj; injection Hj as <-; discriminate.
    + exists (mkStop 4 1 "S3" 3 (216 # 10000) 0). split; [|reflexivity].
      apply (list_elem_of_lookup_2 _ 3%nat). reflexivity.
Defined.

(** * Ingesting a GPS fix *)

Section TrackerClaims.
Local Open Scope Z_scope.
Variable distance_meters : Q -> Q -> Q -> Q -> Q.

Local Abbreviation dist_to lat lng s :=
  (distance_meters lat lng (stop_latitude s) (stop_longitude s)).

(** What the view has done when it reaches the scan of the stops: the
    reading is stored, and no bus has been written. *)
Lemma location_step_frame (db : DB) (bus : Bus) (lat lng speed : Q) (now : Z) :
  let step :=
    match latest_location db (bus_id bus) with
    | Some loc =>
        let speed_f :=
          if Qle_bool speed 0
          then _estimate_speed_mps distance_meters
                 (Some (loc_latitude loc)) (Some (loc_longitude loc))
                 (Some (loc_updated_at loc)) lat lng now
          else speed in
        let set r := mkBusLiveLocation (loc_id r) (loc_bus r) lat lng speed_f now in
        (with_locations (update_rows loc_id (loc_id loc) set (db_locations db)) db,
         [SavedLocation (set loc) ["latitude"; "longitude"; "speed"; "updated_at"]])
    | None =>
        let speed_f := if Qle_bool speed 0 then 0%Q else speed in
        let row := mkBusLiveLocation (fresh_pk (loc_id <$> db_locations db))
                     (bus_id bus) lat lng speed_f now in
        (with_locations (db_locations db ++ [row]) db, [CreatedLocation row])
    end in
  db_buses step.1 = db_buses db /\ Forall (fun w => ~ is_bus_write w) step.2.
Proof.
  intros step. unfold step. destruct (latest_location db (bus_id bus)); simpl;
    (split; [done|]); repeat constructor; by intros [].
Qed.

(** C3. When a fix is ingested and some stop of the route of the bus is
    less than 50 m away, the bus ends with the name of a nearest stop as
    its current stop, and the column is written exactly when that name
    differs from the one it had; when every stop of the route is 50 m away
    or more, the bus row is left as it was, its current stop included, and
    no bus column is written. *)
Theorem ingest_snaps_to_nearest_stop
    (db : DB) (req : location_request) (id now : Z) (lat lng : Q) (bus : Bus) :
  let out := update_bus_location distance_meters db req id now in
  let stops := filter (fun s => stop_route s = bus_route bus) (db_stops db) in
  req_lat req = Some lat -> req_lng req = Some lng ->
  get_bus db id = Some bus ->
  out.1.1 = StatusOk ->
  ((exists t, t ∈ stops /\ (dist_to lat lng t < 50)%Q) ->
   exists s, s ∈ stops /\
     (forall t, t ∈ stops -> (dist_to lat lng s <= dist_to lat lng t)%Q) /\
     (dist_to lat lng s < 50)%Q /\
     bus_current_stop <$> get_bus out.1.2 id = Some (Some (stop_name s)) /\
     (bus_current_stop bus = Some (stop_name s) ->
        get_bus out.1.2 id = Some bus /\ Forall (fun w => ~ is_bus_write w) out.2) /\
     (bus_current_stop bus <> Some (stop_name s) ->
        SavedBus (set_current_stop (stop_name s) bus) ["current_stop"] ∈ out.2)) /\
  ((forall t, t ∈ stops -> (50 <= dist_to lat lng t)%Q) ->
   get_bus out.1.2 id = Some bus /\ Forall (fun w => ~ is_bus_write w) out.2).
Proof.
  intros out stops Hlat Hlng Hbus Hok.
  pose proof (get_bus_Some db id bus Hbus) as [_ Hid].
  unfold out, update_bus_location in *. clear out.
  rewrite Hlat, Hlng, Hbus in *.
  destruct (req_is_post req); [|done]. cbn [negb] in *.
  destruct (valid_range lat lng); [|done]. cbn [negb] in *.
  set (speed := if Qltb (default 0%Q (req_speed req)) 0 then 0%Q
                else default 0%Q (req_speed req)) in *.
  pose proof (location_step_frame db bus lat lng speed now) as Hframe.
  cbv zeta in Hframe.
  destruct (match latest_location db (bus_id bus) with Some _ => _ | None => _ end)
    as [db1 w1].
  cbn [fst snd] in Hframe. destruct Hframe as [Hbuses Hw1].
  assert (Hbus1 : get_bus db1 id = Some bus) by (unfold get_bus; by rewrite Hbuses).
  pose proof (nearest_scan_None distance_meters lat lng stops) as Hscan. fold stops.
  destruct (fold_left (nearer distance_meters lat lng) stops None) as [[s d]|].
  - destruct Hscan as (Hs & -> & Hmin).
    destruct (Qltb (dist_to lat lng s) 50) eqn:Hnear.
    + apply Qltb_lt in Hnear. split.
      * intros _. exists s. split; [done|]. split; [done|]. split; [done|].
        destruct (decide (bus_current_stop bus = Some (stop_name s))) as [Heq|Hne];
          cbn [fst snd].
        -- rewrite Hbus1. cbn. rewrite Heq. done.
        -- assert (Hnew : get_bus (with_buses (update_rows bus_id (bus_id bus)
                              (set_current_stop (stop_name s)) (db_buses db1)) db1) id =
                          Some (set_current_stop (stop_name s) bus)).
           { unfold get_bus in *. cbn [db_buses with_buses]. rewrite Hid.
             by apply (get_bus_update db). }
           rewrite Hnew. split; [done|]. split; [done|].
           intros _. apply elem_of_app. right. left.
      * intros Hfar. exfalso. specialize (Hfar s Hs).
        by apply Qlt_not_le in Hnear.
    + apply Qltb_ge in Hnear. cbn [fst snd]. split; [|done].
      intros (t & Ht & Hlt). exfalso.
      apply (Qlt_not_le _ _ Hlt). eapply Qle_trans; [exact Hnear | by apply Hmin].
  - cbn [fst snd]. split; [|done].
    intros (t & Ht & _). rewrite Hscan in Ht. by apply elem_of_nil in Ht.
Qed.

Lemma estimate_inside_window (plat plng : Q) (prev now : Z) (lat lng : Q) :
  (forall a b c d, (0 <= distance_meters a b c d)%Q) ->
  let dt := total_seconds (now - prev) in
  ((1 # 2 < dt)%Q /\ (dt <= 120)%Q ->
   _estimate_speed_mps distance_meters (Some plat) (Some plng) (Some prev) lat lng now =
   (distance_meters plat plng lat lng / dt)%Q) /\
  (~ ((1 # 2 < dt)%Q /\ (dt <= 120)%Q) ->
   _estimate_speed_mps distance_meters (Some plat) (Some plng) (Some prev) lat lng now = 0%Q).
Proof.
  intros Hpos dt. unfold _estimate_speed_mps. fold dt.
  destruct (Qle_bool dt (1 # 2)) eqn:Hlo; cbn [orb].
  - apply Qle_bool_iff in Hlo. split; [|done].
    intros [Hgt _]. by apply Qlt_not_le in Hgt.
  - apply not_true_iff_false in Hlo. rewrite Qle_bool_iff in Hlo. apply Qnot_le_lt in Hlo.
    destruct (Qltb 120 dt) eqn:Hhi.
    + apply Qltb_lt in Hhi. split; [|done].
      intros [_ Hle]. by apply Qlt_not_le in Hhi.
    + apply Qltb_ge in Hhi.
      assert (Hd : Qltb (distance_meters plat plng lat lng) 0 = false)
        by (apply Qltb_ge, Hpos).
      rewrite Hd. split; [done|]. intros Hno. exfalso. by apply Hno.
Qed.

Lemma unread_speed_is_not_positive (speed : option Q) :
  speed = None \/ (exists v, speed = Some v /\ (v <= 0)%Q) ->
  Qle_bool (if Qltb (default 0%Q speed) 0 then 0%Q else default 0%Q speed) 0 = true.
Proof.
  intros H. destruct speed as [v|]; [|reflexivity].
  destruct H as [?|(v' & [= <-] & Hv)]; [done|]. unfold default, from_option, id.
  destruct (Qltb v 0); [reflexivity|]. by apply Qle_bool_iff.
Qed.

(** C4. A fix that brings no speed, or a speed of 0 or less, is stored with
    an estimated speed: when the bus has a previous reading and the time
    [dt] since it is more than 0.5 s and at most 120 s, the distance from
    the previous position to the new one divided by [dt]; otherwise 0 (no
    previous reading, [dt] of 0.5 s or less, [dt] above 120 s). The distance
    function is taken non-negative, as a great-circle distance is. So 50 m
    covered in 10 s are stored as 5 m/s, and a fix 0.2 s after the previous
    one as 0. *)
Theorem ingest_estimates_missing_speed
    (db : DB) (req : location_request) (id now : Z) (lat lng : Q) :
  (forall a b c d, (0 <= distance_meters a b c d)%Q) ->
  let out := update_bus_location distance_meters db req id now in
  req_lat req = Some lat -> req_lng req = Some lng ->
  req_speed req = None \/ (exists v, req_speed req = Some v /\ (v <= 0)%Q) ->
  out.1.1 = StatusOk ->
  (exists row,
     row ∈ db_locations out.1.2 /\ loc_bus row = id /\
     loc_latitude row = lat /\ loc_longitude row = lng /\ loc_updated_at row = now /\
     match latest_location db id with
     | Some prev =>
         SavedLocation row ["latitude"; "longitude"; "speed"; "updated_at"] ∈ out.2 /\
         loc_id row = loc_id prev /\
         let dt := total_seconds (now - loc_updated_at prev) in
         ((1 # 2 < dt)%Q /\ (dt <= 120)%Q ->
          loc_speed row =
          (distance_meters (loc_latitude prev) (loc_longitude prev) lat lng / dt)%Q) /\
         (~ ((1 # 2 < dt)%Q /\ (dt <= 120)%Q) -> loc_speed row = 0%Q)
     | None => CreatedLocation row ∈ out.2 /\ loc_speed row = 0%Q
     end) /\
  (forall plat plng t0,
     (distance_meters plat plng lat lng == 50)%Q ->
     (_estimate_speed_mps distance_meters (Some plat) (Some plng) (Some t0)
        lat lng (t0 + 10000000) == 5)%Q) /\
  (forall plat plng t0,
     _estimate_speed_mps distance_meters (Some plat) (Some plng) (Some t0)
       lat lng (t0 + 200000) = 0%Q).
Proof.
  intros Hpos out Hlat Hlng Hspeed Hok. split; [|split].
  - unfold out, update_bus_location in *. clear out.
    rewrite Hlat, Hlng in *.
    destruct (req_is_post req); [|done]. cbn [negb] in *.
    destruct (get_bus db id) as [bus|] eqn:Hbus; [|done].
    pose proof (get_bus_Some db id bus Hbus) as [_ Hid].
    destruct (valid_range lat lng); [|done]. cbn [negb] in *.
    rewrite (unread_speed_is_not_positive _ Hspeed) in *.
    rewrite Hid in *.
    destruct (latest_location db id) as [prev|] eqn:Hprev.
    + apply latest_location_Some in Hprev as [Hin Hpbus].
      set (speed := _estimate_speed_mps distance_meters (Some (loc_latitude prev))
                      (Some (loc_longitude prev)) (Some (loc_updated_at prev)) lat lng now).
      exists (mkBusLiveLocation (loc_id prev) (loc_bus prev) lat lng speed now).
      pose proof (estimate_inside_window (loc_latitude prev) (loc_longitude prev)
                    (loc_updated_at prev) now lat lng Hpos) as Hest.
      cbv zeta in Hest. fold speed in Hest.
      assert (Hrow : mkBusLiveLocation (loc_id prev) (loc_bus prev) lat lng speed now ∈
                     update_rows loc_id (loc_id prev)
                       (fun r => mkBusLiveLocation (loc_id r) (loc_bus r) lat lng speed now)
                       (db_locations db)).
      { apply update_rows_elem_of. exists prev. split; [done|]. by rewrite decide_True. }
      repeat case_match; simplify_eq/=;
        (split; [done|]); (split; [done|]); (split; [done|]); (split; [done|]);
        (split; [done|]);
        (split; [first [by left | by apply elem_of_app; left; left]|]);
        (split; [done|]); exact Hest.
    + set (row := mkBusLiveLocation (fresh_pk (loc_id <$> db_locations db))
                    id lat lng 0 now).
      exists row.
      assert (Hrow : row ∈ db_locations db ++ [row])
        by (apply elem_of_app; right; left).
      repeat case_match; simplify_eq/=;
        (split; [done|]); (split; [done|]); (split; [done|]); (split; [done|]);
        (split; [done|]);
        (split; [first [by left | by apply elem_of_app; left; left]|]); done.
  - intros plat plng t0 Hd. unfold _estimate_speed_mps.
    replace (t0 + 10000000 - t0) with 10000000 by lia.
    change (Qle_bool (total_seconds 10000000) (1 # 2) || Qltb 120 (total_seconds 10000000))
      with false. cbv iota.
    rewrite (proj2 (Qltb_ge _ _) (Hpos _ _ _ _)). rewrite Hd. reflexivity.
  - intros plat plng t0. unfold _estimate_speed_mps.
    replace (t0 + 200000 - t0) with 200000 by lia. reflexivity.
Qed.

End TrackerClaims.

(** * The estimated time of arrival *)



Section EtaClaims.
Local Open Scope Z_scope.
Variable distance_meters : Q -> Q -> Q -> Q -> Q.



End EtaClaims.

Lemma grid_distance_nonneg (a b c d : Q) : (0 <= grid_distance_m a b c d)%Q.
Proof.
  unfold grid_distance_m.
  pose proof (Qabs_nonneg (c - a)). pose proof (Qabs_nonneg (d - b)). lra.
Qed.



(** * One open trip per bus *)


Lemma on_trip_db_one_open_trip : one_open_trip_per_bus on_trip_db.
Proof. intros b. unfold open_trips. etransitivity; [apply length_filter|done]. Qed.


(** * Witnesses for the location tracker *)

Lemma ingest_snaps_to_nearest_stop_witness :
  exists s,
    s ∈ filter (fun s => stop_route s = 1%Z) (db_stops example_db) /\
    bus_current_stop <$>
      get_bus (update_bus_location grid_distance_m example_db example_fix 1 1000).1.2 1 =
    Some (Some (stop_name s)).
Proof.
  destruct (ingest_snaps_to_nearest_stop grid_distance_m example_db example_fix
              1 1000 (9 # 1000) 0 example_bus eq_refl eq_refl eq_refl eq_refl)
    as [Hnear _].
  destruct Hnear as (s & Hs & _ & _ & Hcur & _).
  - exists (mkStop 2 1 "S1" 1 (9 # 1000) 0). split; [|reflexivity].
    apply (list_elem_of_lookup_2 _ 1%nat). reflexivity.
  - exists s. split; [exact Hs | exact Hcur].
Defined.

Lemma ingest_estimates_missing_speed_witness :
  exists row,
    row ∈ db_locations
            (update_bus_location grid_distance_m tracked_db example_fix 1 5000000).1.2 /\
    loc_speed row =
      (grid_distance_m (- (1 # 1000)) 0 (9 # 1000) 0 / total_seconds (5000000 - 0))%Q.
Proof.
  destruct (ingest_estimates_missing_speed grid_distance_m tracked_db example_fix
              1 5000000 (9 # 1000) 0 grid_distance_nonneg eq_refl eq_refl
              (or_introl eq_refl) eq_refl)
    as [(row & Hrow & _ & _ & _ & _ & Hprev) _].
  exists row. split; [exact Hrow|].
  destruct Hprev as (_ & _ & Hin & _). apply Hin. split; [reflexivity | discriminate].
Defined.

(** * More on the path along a route *)

Section RouteExtras.
Local Open Scope Z_scope.
Variable distance_meters : Q -> Q -> Q -> Q -> Q.

Local Abbreviation dist a b :=
  (distance_meters (stop_latitude a) (stop_longitude a) (stop_latitude b) (stop_longitude b)).


Lemma id_to_index_absent (stops : list Stop) (k : Z) :
  (forall s, s ∈ stops -> stop_id s <> k) -> id_to_index stops !! k = None.
Proof.
  induction stops as [|x stops IH] using rev_ind; intros Hno.
  - unfold id_to_index. simpl. by rewrite lookup_empty.
  - rewrite id_to_index_snoc, lookup_insert_ne.
    + apply IH. intros s Hs. apply Hno, elem_of_app. by left.
    + apply Hno, elem_of_app. right. left.
Qed.


(** X2. The path falls back on the direct distance between the two stops
    given, without raising: when one of them is not a stop of the route,
    and when the destination stands at the index of the source or before
    it (a journey asked backwards). *)
Theorem route_path_distance_falls_back (db : DB) (route : Z) (source dest : Stop) :
  let stops := route_stops_ordered db route in
  ((forall s, s ∈ stops -> stop_id s <> stop_id source) \/
   (forall s, s ∈ stops -> stop_id s <> stop_id dest) ->
   _route_path_distance_m distance_meters db route source dest =
   Return (dist source dest)) /\
  (forall i j : nat,
     NoDup (stop_id <$> stops) ->
     stops !! i = Some source -> stops !! j = Some dest -> (j <= i)%nat ->
     _route_path_distance_m distance_meters db route source dest =
     Return (dist source dest)).
Proof.
  intros stops. split.
  - intros Habs. unfold _route_path_distance_m. fold stops.
    destruct stops as [|s0 l] eqn:Hstops; [done|]. rewrite <- Hstops in *.
    destruct Habs as [Habs|Habs]; rewrite (id_to_index_absent _ _ Habs);
      by repeat case_match.
  - intros i j Hnd Hi Hj Hle. unfold _route_path_distance_m. fold stops.
    destruct stops as [|s0 l] eqn:Hstops; [done|]. rewrite <- Hstops in *.
    rewrite (id_to_index_lookup stops i source Hnd Hi).
    rewrite (id_to_index_lookup stops j dest Hnd Hj).
    by destruct (Nat.leb_spec j i); [|lia].
Qed.




Lemma path_length_nonneg (l : list Stop) :
  (forall a b c d, (0 <= distance_meters a b c d)%Q) ->
  (0 <= path_length distance_meters l)%Q.
Proof.
  intros Hpos. induction l as [|a [|b l] IH]; [apply Qle_refl|apply Qle_refl|].
  change (path_length distance_meters (a :: b :: l))
    with (dist a b + path_length distance_meters (b :: l))%Q.
  pose proof (Hpos (stop_latitude a) (stop_longitude a) (stop_latitude b) (stop_longitude b)).
  lra.
Qed.

(** X4. With a distance that is never negative, the path that remains is
    at least the distance to the next stop, and neither is negative. *)
Theorem remaining_path_at_least_next_leg
    (db : DB) (bus : Bus) (lat lng : Q) (next : Stop) (d p : Q) :
  (forall a b c d, (0 <= distance_meters a b c d)%Q) ->
  _route_remaining_distance_m distance_meters db bus lat lng = (Some next, Some d, Some p) ->
  (0 <= d)%Q /\ (d <= p)%Q.
Proof.
  intros Hpos. unfold _route_remaining_distance_m.
  destruct (route_stops_ordered db (bus_route bus)) as [|first l]; [done|].
  destruct (current_stop_of bus (first :: l)) as [current|].
  - destruct (filter _ (first :: l)) as [|nxt rest]; [done|].
    intros [= <- <- <-]. split; [apply Hpos|].
    pose proof (fold_add_leg distance_meters rest
      (distance_meters lat lng (stop_latitude nxt) (stop_longitude nxt)) nxt) as Hfold.
    pose proof (path_length_nonneg (nxt :: rest) Hpos).
    rewrite Hfold. lra.
  - intros [= <- <- <-]. split; [apply Hpos|apply Qle_refl].
Qed.

End RouteExtras.

Lemma route_path_distance_falls_back_witness :
  _route_path_distance_m grid_distance_m example_db 1
    (mkStop 4 1 "S3" 3 (216 # 10000) 0) (mkStop 1 1 "S0" 0 0 0) =
  Return (grid_distance_m (216 # 10000) 0 0 0).
Proof.
  destruct (route_path_distance_falls_back grid_distance_m example_db 1
              (mkStop 4 1 "S3" 3 (216 # 10000) 0) (mkStop 1 1 "S0" 0 0 0))
    as [_ Hback].
  apply (Hback 3%nat 0%nat).
  - apply (bool_decide_unpack _). vm_compute. exact I.
  - reflexivity.
  - reflexivity.
  - lia.
Defined.


Lemma remaining_path_at_least_next_leg_witness :
  exists next d p,
    _route_remaining_distance_m grid_distance_m example_db
      (set_current_stop "S2" example_bus) (19 # 1000) 0 = (Some next, Some d, Some p) /\
    (0 <= d)%Q /\ (d <= p)%Q.
Proof.
  do 3 eexists. split; [reflexivity|].
  apply (remaining_path_at_least_next_leg grid_distance_m example_db
           (set_current_stop "S2" example_bus) (19 # 1000) 0 _ _ _
           grid_distance_nonneg eq_refl).
Defined.

(** * More on the location tracker *)

Lemma lex_leb_trans (a1 a2 b1 b2 c1 c2 : Z) :
  lex_leb a1 a2 b1 b2 = true -> lex_leb b1 b2 c1 c2 = true -> lex_leb a1 a2 c1 c2 = true.
Proof. unfold lex_leb. lia. Qed.


Lemma trip_leb_trans (a b c : BusTrip) :
  trip_leb a b = true -> trip_leb b c = true -> trip_leb a c = true.
Proof. unfold trip_leb, lex_leb. lia. Qed.


Lemma filter_fmap_pres {A} (P : A -> Prop) `{!forall x, Decision (P x)}
    (f : A -> A) (l : list A) :
  (forall x, P (f x) <-> P x) -> filter P (f <$> l) = f <$> filter P l.
Proof.
  intros Hf. induction l as [|x l IH]; [done|].
  rewrite fmap_cons. destruct (decide (P x)) as [Hx|Hx].
  - rewrite !filter_cons_True by (by rewrite ?Hf). by rewrite fmap_cons, IH.
  - rewrite !filter_cons_False by (by rewrite ?Hf). done.
Qed.


Ltac no_bus_writes :=
  repeat (apply Forall_cons_2; [left; by intros []|]); apply Forall_nil_2.

Section TrackerExtras.
Local Open Scope Z_scope.
Variable distance_meters : Q -> Q -> Q -> Q -> Q.

Lemma estimate_speed_nonneg (plat plng : option Q) (prev : option Z) (lat lng : Q) (now : Z) :
  (0 <= _estimate_speed_mps distance_meters plat plng prev lat lng now)%Q.
Proof.
  unfold _estimate_speed_mps.
  destruct plat as [plat|], plng as [plng|], prev as [prev|]; try apply Qle_refl.
  destruct (Qle_bool (total_seconds (now - prev)) (1 # 2)) eqn:Hlo; cbn [orb];
    [apply Qle_refl|].
  destruct (Qltb 120 (total_seconds (now - prev))); [apply Qle_refl|].
  destruct (Qltb (distance_meters plat plng lat lng) 0) eqn:Hd; [apply Qle_refl|].
  apply Qltb_ge in Hd.
  apply not_true_iff_false in Hlo. rewrite Qle_bool_iff in Hlo. apply Qnot_le_lt in Hlo.
  apply Qle_shift_div_l; [lra|]. by rewrite Qmult_0_l.
Qed.

(** What an accepted fix leaves in the tables. *)
Lemma ingest_accepted (db : DB) (req : location_request) (id now : Z) :
  let out := update_bus_location distance_meters db req id now in
  out.1.1 = StatusOk ->
  exists lat lng bus speed,
    req_is_post req = true /\ req_lat req = Some lat /\ req_lng req = Some lng /\
    get_bus db id = Some bus /\ valid_range lat lng = true /\
    (0 <= speed)%Q /\ (forall v, req_speed req = Some v -> (0 < v)%Q -> speed = v) /\
    db_locations out.1.2 =
      match latest_location db id with
      | Some loc =>
          update_rows loc_id (loc_id loc)
            (fun r => mkBusLiveLocation (loc_id r) (loc_bus r) lat lng speed now)
            (db_locations db)
      | None =>
          db_locations db ++
          [mkBusLiveLocation (fresh_pk (loc_id <$> db_locations db)) id lat lng speed now]
      end /\
    db_stops out.1.2 = db_stops db /\ db_trips out.1.2 = db_trips db /\
    db_assignments out.1.2 = db_assignments db /\
    db_registrations out.1.2 = db_registrations db /\
    let scan := fold_left (nearer distance_meters lat lng)
                  (filter (fun s => stop_route s = bus_route bus) (db_stops db)) None in
    Forall (fun w => is_bus_write w ->
              exists s d, scan = Some (s, d) /\ Qltb d 50 = true /\
                          bus_current_stop bus <> Some (stop_name s)) out.2 /\
    exists bus',
      get_bus out.1.2 id = Some bus' /\ bus_route bus' = bus_route bus /\
      match scan with
      | Some (s, d) =>
          if Qltb d 50 then bus_current_stop bus' = Some (stop_name s) else bus' = bus
      | None => bus' = bus
      end.
Proof.
  intros out. unfold out, update_bus_location. clear out.
  destruct (req_is_post req); [|done]. cbn [negb].
  destruct (req_lat req) as [lat|]; [|done].
  destruct (req_lng req) as [lng|]; [|done].
  destruct (get_bus db id) as [bus|] eqn:Hbus; [|done].
  pose proof (get_bus_Some db id bus Hbus) as [_ Hid].
  destruct (valid_range lat lng) eqn:Hrange; [|done]. cbn [negb].
  rewrite Hid.
  set (speed0 := if Qltb (default 0%Q (req_speed req)) 0 then 0%Q
                 else default 0%Q (req_speed req)).
  assert (Hspeed0 : (0 <= speed0)%Q).
  { unfold speed0. destruct (Qltb _ 0) eqn:H0; [apply Qle_refl|]. by apply Qltb_ge in H0. }
  assert (Hpos0 : forall v, req_speed req = Some v -> (0 < v)%Q ->
                  speed0 = v /\ Qle_bool speed0 0 = false).
  { intros v Hsp Hv. unfold speed0. rewrite Hsp. unfold default, from_option. simpl.
    rewrite (proj2 (Qltb_ge v 0)) by (by apply Qlt_le_weak).
    split; [done|]. apply not_true_iff_false. rewrite Qle_bool_iff. by apply Qlt_not_le. }
  intros _.
  set (speed :=
    match latest_location db id with
    | Some loc =>
        if Qle_bool speed0 0
        then _estimate_speed_mps distance_meters (Some (loc_latitude loc))
               (Some (loc_longitude loc)) (Some (loc_updated_at loc)) lat lng now
        else speed0
    | None => if Qle_bool speed0 0 then 0%Q else speed0
    end).
  exists lat, lng, bus, speed.
  do 5 (split; [done|]).
  split. { unfold speed. repeat case_match; try done; apply estimate_speed_nonneg. }
  split.
  { intros v Hv Hgt. destruct (Hpos0 v Hv Hgt) as [<- Hf]. unfold speed.
    rewrite Hf. by case_match. }
  unfold speed. clear speed. cbv zeta.
  destruct (fold_left (nearer distance_meters lat lng)
              (filter (fun s => stop_route s = bus_route bus) (db_stops db)) None)
    as [[s d]|] eqn:Hscan;
    [destruct (Qltb d 50) eqn:Hnear;
     [destruct (decide (bus_current_stop bus = Some (stop_name s))) as [Hcur|Hcur]|]|];
    destruct (latest_location db id) as [loc|] eqn:Hloc;
    cbn [fst snd db_locations db_stops db_trips db_assignments db_registrations
         with_locations with_buses app];
    do 5 (split; [done|]);
    (split;
     [repeat (apply Forall_cons_2; [first [by intros [] | intros _; by exists s, d]|]);
      apply Forall_nil_2|]);
    first [ exists bus; split; [exact Hbus|]; by split
          | exists (set_current_stop (stop_name s) bus); split; [|by split];
            unfold get_bus; cbn [db_buses with_buses with_locations];
            by apply get_bus_update ].
Qed.

Lemma ingest_refused (db : DB) (req : location_request) (id now : Z) :
  let out := update_bus_location distance_meters db req id now in
  out.1.1 <> StatusOk -> out.1.2 = db /\ out.2 = [].
Proof.
  intros out Hno. unfold out, update_bus_location in *. clear out.
  destruct (req_is_post req); [|done]. cbn [negb] in *.
  destruct (req_lat req) as [lat|]; [|done].
  destruct (req_lng req) as [lng|]; [|done].
  destruct (get_bus db id) as [bus|]; [|done].
  destruct (valid_range lat lng); [|done]. cbn [negb] in *.
  exfalso. apply Hno. by repeat case_match.
Qed.


(** X6. An accepted fix supersedes the reading of the bus instead of
    adding one: the bus keeps the number of readings it had, or gets its
    first; the readings of the other buses are as many as before. The
    stops, the trips and the driver assignments are not touched. *)
Theorem ingest_supersedes_reading (db : DB) (req : location_request) (id now : Z) :
  let out := update_bus_location distance_meters db req id now in
  out.1.1 = StatusOk ->
  readings out.1.2 id = Nat.max 1 (readings db id) /\
  (forall b, b <> id -> readings out.1.2 b = readings db b) /\
  db_stops out.1.2 = db_stops db /\ db_trips out.1.2 = db_trips db /\
  db_assignments out.1.2 = db_assignments db.
Proof.
  intros out Hok.
  destruct (ingest_accepted db req id now Hok)
    as (lat & lng & bus & speed & _ & _ & _ & _ & _ & _ & _ & Hlocs & Hstops & Htrips &
        Hasg & _).
  fold out in Hlocs, Hstops, Htrips, Hasg.
  split; [|split; [|done]]; unfold readings; rewrite Hlocs.
  - destruct (latest_location db id) as [loc|] eqn:Hloc.
    + unfold update_rows. rewrite filter_fmap_pres, length_fmap by (intros x; by case_decide).
      apply latest_location_Some in Hloc as [Hin Hb].
      assert (Hf : loc ∈ filter (fun l => loc_bus l = id) (db_locations db))
        by (by apply list_elem_of_filter).
      destruct (filter _ (db_locations db)); [by apply elem_of_nil in Hf|simpl; lia].
    + apply head_order_by_None in Hloc. rewrite filter_app, Hloc.
      by rewrite filter_cons_True.
  - intros b Hb. destruct (latest_location db id) as [loc|].
    + unfold update_rows. by rewrite filter_fmap_pres, length_fmap by (intros x; by case_decide).
    + rewrite filter_app, filter_cons_False, filter_nil, app_nil_r; [done|].
      simpl. congruence.
Qed.


(** X8. Every reading the tracker stores lies within the range of
    latitudes and longitudes and has a speed that is not negative: if that
    holds of the readings on file, it holds after any request, accepted or
    refused, whatever the distance function answers. *)
Theorem ingest_keeps_readings_valid (db : DB) (req : location_request) (id now : Z) :
  Forall valid_reading (db_locations db) ->
  Forall valid_reading (db_locations (update_bus_location distance_meters db req id now).1.2).
Proof.
  intros Hold.
  destruct ((update_bus_location distance_meters db req id now).1.1) as [|code err] eqn:Hst.
  - destruct (ingest_accepted db req id now Hst)
      as (lat & lng & bus & speed & _ & _ & _ & _ & Hrange & Hsp & _ & Hlocs & _).
    rewrite Hlocs. destruct (latest_location db id) as [loc|].
    + unfold update_rows. apply Forall_fmap. eapply Forall_impl; [exact Hold|].
      intros r Hr. simpl. by case_decide.
    + apply Forall_app. split; [done|]. apply Forall_cons_2; [done|apply Forall_nil_2].
  - destruct (ingest_refused db req id now) as [-> _]; [by rewrite Hst|done].
Qed.

(** X9. A fix sent again for the same position writes no column of the
    bus: the first one has already recorded the stop it is at. *)
Theorem repeated_fix_writes_no_bus_column
    (db : DB) (req req' : location_request) (id now now' : Z) :
  let out := update_bus_location distance_meters db req id now in
  out.1.1 = StatusOk ->
  req_lat req' = req_lat req -> req_lng req' = req_lng req ->
  Forall (fun w => ~ is_bus_write w)
    (update_bus_location distance_meters out.1.2 req' id now').2.
Proof.
  intros out Hok Hlat Hlng.
  destruct (ingest_accepted db req id now Hok)
    as (lat & lng & bus & speed & _ & Hla & Hln & _ & _ & _ & _ & _ & Hstops & _ & _ & _ &
        _ & bus' & Hbus' & Hroute & Hcur).
  fold out in Hstops, Hbus'. cbv zeta in Hcur.
  destruct ((update_bus_location distance_meters out.1.2 req' id now').1.1)
    as [|code err] eqn:Hst.
  - destruct (ingest_accepted out.1.2 req' id now' Hst)
      as (lat2 & lng2 & bus2 & speed2 & _ & Hla2 & Hln2 & Hbus2 & _ & _ & _ & _ & _ & _ &
          _ & _ & Hw & _).
    assert (lat2 = lat) as -> by congruence. assert (lng2 = lng) as -> by congruence.
    assert (bus2 = bus') as -> by congruence.
    cbv zeta in Hw. rewrite Hstops, Hroute in Hw.
    eapply Forall_impl; [exact Hw|]. intros w Hex Hbw.
    destruct (Hex Hbw) as (s & d & Hscan & Hnear & Hne).
    rewrite Hscan, Hnear in Hcur. done.
  - destruct (ingest_refused out.1.2 req' id now') as [_ ->]; [by rewrite Hst|done].
Qed.

End TrackerExtras.

Lemma ingest_supersedes_reading_witness :
  readings (update_bus_location grid_distance_m tracked_db example_fix 1 5000000).1.2 1 =
  1%nat.
Proof.
  destruct (ingest_supersedes_reading grid_distance_m tracked_db example_fix 1 5000000
              eq_refl) as [Hone _].
  exact Hone.
Defined.


Lemma ingest_keeps_readings_valid_witness :
  Forall valid_reading
    (db_locations (update_bus_location grid_distance_m tracked_db example_fix 1 5000000).1.2).
Proof.
  apply (ingest_keeps_readings_valid grid_distance_m tracked_db example_fix 1 5000000).
  apply Forall_cons_2; [|apply Forall_nil_2]. split; [reflexivity|]. simpl. lra.
Defined.

Lemma repeated_fix_writes_no_bus_column_witness :
  Forall (fun w => ~ is_bus_write w)
    (update_bus_location grid_distance_m
       (update_bus_location grid_distance_m example_db example_fix 1 1000).1.2
       example_fix 1 2000).2.
Proof.
  apply (repeated_fix_writes_no_bus_column grid_distance_m example_db example_fix
           example_fix 1 1000 2000 eq_refl eq_refl eq_refl).
Defined.

(** * More on driver access and trips *)

Section TripExtras.
Local Open Scope Z_scope.

Lemma access_with_assignment (db : DB) (user : User) (bus : Bus) (now : Z)
    (a : DriverBusAssignment) :
  a ∈ db_assignments db -> asg_user a = user_id user -> asg_bus a = bus_id bus ->
  is_active_assignment a ->
  _driver_can_access_bus db user bus now = (true, db, []).
Proof.
  intros Hin Hu Hb Hact. unfold _driver_can_access_bus.
  case_decide; [done|].
  destruct (filter _ (db_assignments db)) as [|a' l] eqn:Hf; [|done].
  exfalso. eapply elem_of_nil. rewrite <- Hf. by apply list_elem_of_filter.
Qed.

Lemma access_granted_cases (db : DB) (user : User) (bus : Bus) (now : Z) :
  let out := _driver_can_access_bus db user bus now in
  out.1.1 = true ->
  user_role user = "admin" \/
  exists a, a ∈ db_assignments out.1.2 /\ asg_user a = user_id user /\
            asg_bus a = bus_id bus /\ is_active_assignment a.
Proof.
  intros out. unfold out, _driver_can_access_bus, create_assignment. clear out.
  case_decide as Hadmin; [by left|].
  destruct (filter _ (db_assignments db)) as [|a l] eqn:Hf.
  - assert (Hnew : forall row : DriverBusAssignment, row ∈ db_assignments db ++ [row])
      by (intros row; apply elem_of_app; right; left).
    repeat case_match; simplify_eq/=; try done;
      intros _; right; eexists; (split; [apply Hnew|done]).
  - intros _. right. exists a.
    assert (Ha : a ∈ filter (fun a => asg_user a = user_id user /\ asg_bus a = bus_id bus /\
                                      is_active_assignment a) (db_assignments db))
      by (rewrite Hf; left).
    apply list_elem_of_filter in Ha as [(? & ? & ?) ?]. done.
Qed.

(** Once granted, access holds on every later state that keeps the
    assignments, and is checked without a write. *)
Lemma access_stable (db : DB) (user : User) (bus : Bus) (now : Z)
    (db2 : DB) (bus2 : Bus) (now2 : Z) :
  (_driver_can_access_bus db user bus now).1.1 = true ->
  db_assignments db2 = db_assignments (_driver_can_access_bus db user bus now).1.2 ->
  bus_id bus2 = bus_id bus ->
  _driver_can_access_bus db2 user bus2 now2 = (true, db2, []).
Proof.
  intros Hok Hasg Hid.
  destruct (access_granted_cases db user bus now Hok) as [Hadmin|(a & Ha & Hu & Hb & Hact)].
  - unfold _driver_can_access_bus. by rewrite decide_True.
  - apply (access_with_assignment db2 user bus2 now2 a); by rewrite ?Hasg, ?Hid.
Qed.

Lemma access_denied (db : DB) (user : User) (bus : Bus) (now : Z) :
  let out := _driver_can_access_bus db user bus now in
  out.1.1 = false -> out.1.2 = db /\ out.2 = [].
Proof.
  intros out. unfold out, _driver_can_access_bus, create_assignment.
  repeat (case_decide || case_match); simplify_eq/=; done.
Qed.

Lemma access_frame (db : DB) (user : User) (bus : Bus) (now : Z) :
  let out := _driver_can_access_bus db user bus now in
  db_buses out.1.2 = db_buses db /\ db_trips out.1.2 = db_trips db /\
  db_stops out.1.2 = db_stops db /\ db_locations out.1.2 = db_locations db /\
  db_registrations out.1.2 = db_registrations db /\
  (length (db_assignments out.1.2) <= S (length (db_assignments db)))%nat.
Proof.
  intros out. unfold out, _driver_can_access_bus, create_assignment.
  repeat (case_decide || case_match); simplify_eq/=;
    rewrite ?length_app; simpl; repeat split; lia.
Qed.

(** X10. Access to a bus is remembered: a check that denies it writes
    nothing and leaves the tables as they were; a check that grants it adds
    at most one assignment, and every later check for the same driver and
    bus is then granted without a write. *)
Theorem driver_access_is_remembered (db : DB) (user : User) (bus : Bus) (now : Z) :
  let out := _driver_can_access_bus db user bus now in
  (out.1.1 = false -> out.1.2 = db /\ out.2 = []) /\
  (out.1.1 = true ->
   forall now', _driver_can_access_bus out.1.2 user bus now' = (true, out.1.2, [])) /\
  (length (db_assignments out.1.2) <= S (length (db_assignments db)))%nat.
Proof.
  intros out. split; [apply access_denied|]. split; [|apply access_frame].
  intros Hok now'. by apply (access_stable db user bus now).
Qed.

(** X11. A trip request that is turned down (no such bus, or a driver
    without access to it) changes no table and writes nothing: so for
    starting a trip, for ending one and for the trip summary. *)
Theorem refused_trip_requests_change_nothing (db : DB) (user : User) (id now : Z) :
  ((start_trip db user id now).1.1 <> RedirectDashboard None ->
   (start_trip db user id now).1.2 = db /\ (start_trip db user id now).2 = []) /\
  ((end_trip db user id now).1.1 <> RedirectDashboard None ->
   (end_trip db user id now).1.2 = db /\ (end_trip db user id now).2 = []) /\
  (page_status (driver_trip_summary db user id now).1.1 <> StatusOk ->
   (driver_trip_summary db user id now).1.2 = db /\
   (driver_trip_summary db user id now).2 = []).
Proof.
  unfold start_trip, end_trip, driver_trip_summary.
  destruct (get_bus db id) as [bus|]; [|done].
  pose proof (access_denied db user bus now) as Hden. cbv zeta in Hden.
  destruct (_driver_can_access_bus db user bus now) as [[[] db0] w0]; cbn [negb fst snd] in *.
  - split; [|split]; intros Hno; exfalso; apply Hno; by repeat case_match.
  - by destruct (Hden eq_refl) as [-> ->].
Qed.

Lemma fmap_update_rows_pk {A} (pk : A -> Z) (id : Z) (f : A -> A) (rows : list A) :
  (forall r, pk (f r) = pk r) -> pk <$> update_rows pk id f rows = pk <$> rows.
Proof.
  intros Hf. unfold update_rows. rewrite <- list_fmap_compose.
  apply list_fmap_ext. intros i r _. simpl. by case_decide.
Qed.

(** What a trip start that goes through leaves in the tables. *)
Lemma start_trip_done (db : DB) (user : User) (id now : Z) :
  let out := start_trip db user id now in
  out.1.1 = RedirectDashboard None ->
  exists bus,
    get_bus db id = Some bus /\
    (_driver_can_access_bus db user bus now).1.1 = true /\
    db_assignments out.1.2 = db_assignments (_driver_can_access_bus db user bus now).1.2 /\
    db_trips out.1.2 =
      match open_trip_of db id with
      | Some t => update_rows trip_id (trip_id t) (set_trip_end_time now) (db_trips db)
      | None => db_trips db
      end ++ [mkBusTrip (fresh_pk (trip_id <$> db_trips db)) id now None] /\
    get_bus out.1.2 id = Some (set_trip_start_time now (set_trip_active true bus)).
Proof.
  intros out. unfold out, start_trip. clear out.
  destruct (get_bus db id) as [bus|] eqn:Hbus; [|done].
  pose proof (get_bus_Some db id bus Hbus) as [_ Hid].
  pose proof (access_frame db user bus now) as (Hbuses & Htrips & _). cbv zeta in Hbuses, Htrips.
  destruct (_driver_can_access_bus db user bus now) as [[[] db0] w0] eqn:Hacc;
    cbn [negb fst snd] in *; [|done].
  intros _. exists bus. rewrite Hacc. do 2 (split; [done|]).
  assert (Hopen : open_trip_of db0 (bus_id bus) = open_trip_of db id)
    by (unfold open_trip_of; by rewrite Htrips, Hid).
  rewrite Hopen.
  assert (Hget : forall db2 : DB, db_buses db2 = db_buses db0 ->
            get_bus (with_buses
                       (update_rows bus_id (bus_id bus)
                          (fun b => set_trip_start_time now (set_trip_active true b))
                          (db_buses db2)) db2) id =
            Some (set_trip_start_time now (set_trip_active true bus))).
  { intros db2 Hdb2. unfold get_bus. cbn [db_buses with_buses]. rewrite Hdb2, Hbuses, Hid.
    by apply (get_bus_update db id bus
                (fun b => set_trip_start_time now (set_trip_active true b))). }
  destruct (open_trip_of db id) as [t|];
    cbn [close_trip create_trip fst snd db_trips db_assignments with_trips with_buses
         trip_start_time].
  - split; [done|]. split.
    + rewrite fmap_update_rows_pk by done. by rewrite Htrips, Hid.
    + by apply (Hget (with_trips _ (with_trips _ db0))).
  - split; [done|]. split.
    + by rewrite Htrips, Hid.
    + by apply (Hget (with_trips _ db0)).
Qed.

Lemma singleton_of_length {A} (l : list A) (x : A) : length l = 1%nat -> x ∈ l -> l = [x].
Proof.
  destruct l as [|y [|z l]]; simpl; intros Hlen Hin; try lia.
  by apply list_elem_of_singleton in Hin as ->.
Qed.

(** The summary of a bus on a trip that has its open trip row. *)
Lemma trip_summary_of_open_trip (db : DB) (user : User) (id now : Z) (bus : Bus)
    (trip : BusTrip) :
  get_bus db id = Some bus -> bus_trip_active bus = true ->
  _driver_can_access_bus db user bus now = (true, db, []) ->
  open_trip_of db id = Some trip ->
  driver_trip_summary db user id now = (mkTripPage StatusOk (Some bus) (Some trip), db, []).
Proof.
  intros Hbus Hactive Hacc Hopen.
  pose proof (get_bus_Some db id bus Hbus) as [_ Hid].
  unfold driver_trip_summary. rewrite Hbus, Hacc. cbn [negb]. rewrite Hactive.
  unfold backfill_trip. by rewrite Hid, Hopen.
Qed.

(** X12. A trip start that goes through leaves the bus flagged as on a
    trip that began at the time of the request, with a new open trip of that
    start time as its last trip row; when the bus had at most one open trip,
    the new one is its only open trip, and the trip summary asked next
    answers with it and writes nothing. *)
Theorem start_trip_opens_trip_now (db : DB) (user : User) (id now : Z) :
  let out := start_trip db user id now in
  let trip := mkBusTrip (fresh_pk (trip_id <$> db_trips db)) id now None in
  out.1.1 = RedirectDashboard None ->
  (open_trips db id <= 1)%nat ->
  exists bus',
    get_bus out.1.2 id = Some bus' /\
    bus_trip_active bus' = true /\ bus_trip_start_time bus' = Some now /\
    last (db_trips out.1.2) = Some trip /\
    open_trip_of out.1.2 id = Some trip /\
    forall now',
      driver_trip_summary out.1.2 user id now' =
      (mkTripPage StatusOk (Some bus') (Some trip), out.1.2, []).
Proof.
  intros out trip Hok Hone.
  destruct (start_trip_done db user id now Hok) as (bus & Hbus & Hacc & Hasg & Htrips & Hbus').
  fold out in Hasg, Htrips, Hbus'. fold trip in Htrips.
  pose proof (get_bus_Some db id bus Hbus) as [_ Hid].
  exists (set_trip_start_time now (set_trip_active true bus)).
  do 3 (split; [done|]).
  split; [by rewrite Htrips, last_snoc|].
  assert (Hopen : open_trip_of out.1.2 id = Some trip).
  { destruct (start_trip_open_trips db user id now id Hone) as [_ Hlen].
    specialize (Hlen eq_refl Hok). fold out in Hlen. unfold open_trips in Hlen.
    unfold open_trip_of.
    rewrite (singleton_of_length _ trip Hlen); [done|].
    apply list_elem_of_filter. split; [done|].
    rewrite Htrips. apply elem_of_app. right. left. }
  split; [done|]. intros now'.
  apply trip_summary_of_open_trip; [done|done| |done].
  by apply (access_stable db user bus now).
Qed.

(** X13. A trip that is started and then ended by the same driver is
    recorded as one closed trip row from the first request to the second,
    and the bus ends up off trip with no open trip left. The start time the
    bus carries is not cleared. *)
Theorem start_then_end_trip (db : DB) (user : User) (id t1 t2 : Z) :
  let started := start_trip db user id t1 in
  let ended := end_trip started.1.2 user id t2 in
  started.1.1 = RedirectDashboard None ->
  (open_trips db id <= 1)%nat ->
  ended.1.1 = RedirectDashboard None /\
  mkBusTrip (fresh_pk (trip_id <$> db_trips db)) id t1 (Some t2) ∈ db_trips ended.1.2 /\
  open_trips ended.1.2 id = 0%nat /\
  exists bus',
    get_bus ended.1.2 id = Some bus' /\
    bus_trip_active bus' = false /\ bus_trip_start_time bus' = Some t1.
Proof.
  intros started ended Hok Hone.
  destruct (start_trip_done db user id t1 Hok) as (bus & Hbus & Hacc & Hasg & Htrips & Hbus').
  fold started in Hasg, Htrips, Hbus'.
  pose proof (get_bus_Some db id bus Hbus) as [_ Hid].
  set (trip := mkBusTrip (fresh_pk (trip_id <$> db_trips db)) id t1 None) in *.
  destruct (start_trip_open_trips db user id t1 id Hone) as [Hle Hlen].
  specialize (Hlen eq_refl Hok). fold started in Hle, Hlen.
  assert (Hopen : open_trip_of started.1.2 id = Some trip).
  { unfold open_trips in Hlen. unfold open_trip_of.
    rewrite (singleton_of_length _ trip Hlen); [done|].
    apply list_elem_of_filter. split; [done|].
    rewrite Htrips. apply elem_of_app. right. left. }
  assert (Hended : ended.1.1 = RedirectDashboard None).
  { unfold ended, end_trip. rewrite Hbus'.
    rewrite (access_stable db user bus t1 started.1.2
               (set_trip_start_time t1 (set_trip_active true bus)) t2 Hacc Hasg eq_refl).
    cbn [negb]. by repeat case_match. }
  split; [done|]. split.
  { apply (end_trip_closes_open_trip started.1.2 user id t2 trip Hopen Hended). }
  split.
  { destruct (end_trip_open_trips started.1.2 user id t2 id) as [_ Hzero]; [lia|].
    by apply Hzero. }
  exists (set_trip_active false (set_trip_start_time t1 (set_trip_active true bus))).
  split; [|done].
  unfold ended, end_trip. rewrite Hbus'.
  rewrite (access_stable db user bus t1 started.1.2
             (set_trip_start_time t1 (set_trip_active true bus)) t2 Hacc Hasg eq_refl).
  cbn [negb bus_id set_trip_start_time set_trip_active]. rewrite Hid, Hopen.
  cbn [close_trip fst snd]. unfold get_bus. cbn [db_buses with_buses with_trips].
  apply (get_bus_update started.1.2); [done|]. exact Hbus'.
Qed.

Lemma trip_summary_backfill_done (db : DB) (user : User) (id now : Z) (bus : Bus) :
  let out := driver_trip_summary db user id now in
  let trip := mkBusTrip (fresh_pk (trip_id <$> db_trips db)) id
                (default now (bus_trip_start_time bus)) None in
  get_bus db id = Some bus -> bus_trip_active bus = true -> open_trip_of db id = None ->
  page_status out.1.1 = StatusOk ->
  (_driver_can_access_bus db user bus now).1.1 = true /\
  db_assignments out.1.2 = db_assignments (_driver_can_access_bus db user bus now).1.2 /\
  page_active_trip out.1.1 = Some trip /\
  db_trips out.1.2 = db_trips db ++ [trip] /\
  exists bus', get_bus out.1.2 id = Some bus' /\ bus_id bus' = bus_id bus /\
               bus_trip_active bus' = true.
Proof.
  intros out trip Hbus Hactive Hnone.
  pose proof (get_bus_Some db id bus Hbus) as [_ Hid].
  pose proof (access_frame db user bus now) as (Hbuses & Htrips & _).
  cbv zeta in Hbuses, Htrips.
  unfold out, driver_trip_summary. clear out. rewrite Hbus.
  destruct (_driver_can_access_bus db user bus now) as [[[] db0] w0]; cbn [negb fst snd] in *;
    [|done].
  intros _. rewrite Hactive. unfold backfill_trip.
  assert (Hopen0 : open_trip_of db0 (bus_id bus) = None)
    by (unfold open_trip_of in *; by rewrite Htrips, Hid).
  rewrite Hopen0. unfold legacy_start_time, trip.
  destruct (bus_trip_start_time bus) as [t0|] eqn:Hstart;
    cbn [create_trip fst snd page_active_trip db_trips db_assignments with_trips with_buses
         bus_id set_trip_start_time default from_option];
    rewrite ?Htrips, ?Hid; do 4 (split; [done|]).
  - exists bus. split; [|done]. unfold get_bus. cbn [db_buses with_trips].
    rewrite Hbuses. exact Hbus.
  - exists (set_trip_start_time now bus). split; [|done].
    unfold get_bus. cbn [db_buses with_trips with_buses]. rewrite Hbuses.
    by apply (get_bus_update db).
Qed.

(** X14. The trip summary of a bus that is flagged as on a trip but has no
    open trip row gives it one: a single open trip is appended, starting at
    the start time the bus carries or, if it carries none, at the time of
    the request; the summary asked again answers with the same trip and
    writes nothing. *)
Theorem trip_summary_backfills_once (db : DB) (user : User) (id now : Z) (bus : Bus) :
  let out := driver_trip_summary db user id now in
  let trip := mkBusTrip (fresh_pk (trip_id <$> db_trips db)) id
                (default now (bus_trip_start_time bus)) None in
  get_bus db id = Some bus -> bus_trip_active bus = true -> open_trip_of db id = None ->
  page_status out.1.1 = StatusOk ->
  page_active_trip out.1.1 = Some trip /\
  db_trips out.1.2 = db_trips db ++ [trip] /\
  open_trips out.1.2 id = 1%nat /\
  forall now',
    page_active_trip (driver_trip_summary out.1.2 user id now').1.1 = Some trip /\
    (driver_trip_summary out.1.2 user id now').1.2 = out.1.2 /\
    (driver_trip_summary out.1.2 user id now').2 = [].
Proof.
  intros out trip Hbus Hactive Hnone Hok.
  destruct (trip_summary_backfill_done db user id now bus Hbus Hactive Hnone Hok)
    as (Hacc & Hasg & Hpage & Htrips & bus' & Hbus' & Hid' & Hactive').
  fold out in Hasg, Hpage, Htrips, Hbus'. fold trip in Hpage, Htrips.
  assert (Hafter : filter (is_open_trip_of id) (db_trips out.1.2) = [trip]).
  { apply head_order_by_None in Hnone. rewrite Htrips, filter_app, Hnone.
    by rewrite filter_cons_True. }
  do 2 (split; [done|]). split; [unfold open_trips; by rewrite Hafter|].
  intros now'.
  rewrite (trip_summary_of_open_trip out.1.2 user id now' bus' trip); [done|done|done| |].
  - by apply (access_stable db user bus now).
  - unfold open_trip_of. by rewrite Hafter.
Qed.

End TripExtras.

Lemma start_trip_opens_trip_now_witness :
  open_trip_of (start_trip on_trip_db example_driver 1 50).1.2 1 =
  Some (mkBusTrip 2 1 50 None).
Proof.
  destruct (start_trip_opens_trip_now on_trip_db example_driver 1 50 eq_refl)
    as (bus' & _ & _ & _ & _ & Hopen & _).
  - apply on_trip_db_one_open_trip.
  - exact Hopen.
Defined.

Lemma start_then_end_trip_witness :
  mkBusTrip 1 1 100 (Some 900) ∈
    db_trips (end_trip (start_trip example_db example_driver 1 100).1.2
                example_driver 1 900).1.2 /\
  open_trips (end_trip (start_trip example_db example_driver 1 100).1.2
                example_driver 1 900).1.2 1 = 0%nat.
Proof.
  destruct (start_then_end_trip example_db example_driver 1 100 900 eq_refl)
    as (_ & Hrow & Hnone & _).
  - unfold open_trips. simpl. lia.
  - split; [exact Hrow | exact Hnone].
Defined.

Lemma trip_summary_backfills_once_witness :
  db_trips
    (driver_trip_summary
       (with_buses [set_trip_active true example_bus] example_db) example_driver 1 70).1.2 =
  [mkBusTrip 1 1 70 None].
Proof.
  destruct (trip_summary_backfills_once
              (with_buses [set_trip_active true example_bus] example_db) example_driver 1 70
              (set_trip_active true example_bus) eq_refl eq_refl eq_refl eq_refl)
    as (_ & Htrips & _).
  exact Htrips.
Defined.

(** * More on the fare *)

Section FareExtras.
Local Open Scope Z_scope.
Import Dec.

Lemma Qceiling_succ (x y : Q) : (y == x + 1)%Q -> Qceiling y = Qceiling x + 1.
Proof.
  intros Hy.
  pose proof (Qle_ceiling x) as Hx1. pose proof (Qceiling_lt x) as Hx2.
  pose proof (Qle_ceiling y) as Hy1. pose proof (Qceiling_lt y) as Hy2.
  assert (Qceiling y - 1 < Qceiling x + 1).
  { rewrite Zlt_Qlt, inject_Z_plus. change (inject_Z 1) with 1%Q. lra. }
  assert (Qceiling x - 1 < Qceiling y + -1).
  { rewrite Zlt_Qlt, inject_Z_plus. change (inject_Z (-1)) with (-1)%Q. lra. }
  lia.
Qed.

(** X15. Past the base distance, a kilometre more costs exactly one unit
    more: for a distance above 2500 m and the distance 1000 m beyond it,
    both fares are returned, and the second is the first plus 1.00. *)
Theorem fare_next_kilometre (c1 e1 c2 e2 : Z) :
  float_numeral c1 e1 -> float_numeral c2 e2 ->
  (2500 < to_Q c1 e1)%Q ->
  (to_Q c2 e2 == to_Q c1 e1 + 1000)%Q ->
  (to_Q c2 e2 < inject_Z (10 ^ 28))%Q ->
  exists cents,
    _fare_from_distance_m (Numeral (Finite c1 e1)) = Return (Finite cents (-2)) /\
    _fare_from_distance_m (Numeral (Finite c2 e2)) = Return (Finite (cents + 100) (-2)).
Proof.
  intros H1 H2 Hlo Hstep Hhi.
  apply float_numeral_prec in H1, H2.
  rewrite (fare_above_base c1 e1 H1 Hlo) by lra.
  rewrite (fare_above_base c2 e2 H2) by lra.
  eexists. split; [reflexivity|]. do 2 f_equal.
  rewrite (Qceiling_succ (to_Q c1 e1 / 1000 - (5 # 2)) (to_Q c2 e2 / 1000 - (5 # 2))).
  - lia.
  - rewrite Hstep. field.
Qed.

End FareExtras.

Lemma fare_next_kilometre_witness :
  exists cents,
    _fare_from_distance_m (Numeral (Dec.Finite 34000 (-1))) = Return (Dec.Finite cents (-2)) /\
    _fare_from_distance_m (Numeral (Dec.Finite 44000 (-1))) =
    Return (Dec.Finite (cents + 100) (-2)).
Proof.
  apply (fare_next_kilometre 34000 (-1) 44000 (-1)).
  - split; [reflexivity | lia].
  - split; [reflexivity | lia].
  - reflexivity.
  - reflexivity.
  - reflexivity.
Defined.

(** * OTPs *)

Section TextFacts.

Lemma otp_char_plain (c : ascii) :
  is_otp_char c = true -> is_space c = false /\ upper_char c = c.
Proof. by destruct c as [[] [] [] [] [] [] [] []]. Qed.

Lemma upper_char_idemp (c : ascii) : upper_char (upper_char c) = upper_char c.
Proof. by destruct c as [[] [] [] [] [] [] [] []]. Qed.

Lemma upper_char_space (c : ascii) : is_space (upper_char c) = is_space c.
Proof. by destruct c as [[] [] [] [] [] [] [] []]. Qed.

Lemma lstrip_spaces (ws l : list ascii) :
  forallb is_space ws = true -> lstrip (ws ++ l) = lstrip l.
Proof.
  induction ws as [|c ws IH]; [done|]. simpl. intros [Hc Hws]%andb_true_iff.
  rewrite Hc. by apply IH.
Qed.

Lemma lstrip_plain (l : list ascii) :
  match l with c :: _ => is_space c = false | [] => True end -> lstrip l = l.
Proof. destruct l as [|c l]; [done|]. simpl. by intros ->. Qed.

Lemma lstrip_fmap_upper (l : list ascii) :
  lstrip (upper_char <$> l) = upper_char <$> lstrip l.
Proof.
  induction l as [|c l IH]; [done|]. csimpl. rewrite upper_char_space.
  by destruct (is_space c).
Qed.

Lemma forallb_reverse {A} (f : A -> bool) (l : list A) :
  forallb f (reverse l) = forallb f l.
Proof.
  induction l as [|x l IH]; [done|].
  rewrite reverse_cons, forallb_app, IH. simpl. by rewrite andb_true_r, andb_comm.
Qed.

(** Blanks around a text without blanks at its ends are what [strip]
    removes. *)
Lemma strip_padding (before core after : list ascii) :
  forallb is_space before = true -> forallb is_space after = true ->
  core <> [] -> forallb is_otp_char core = true ->
  reverse (lstrip (reverse (lstrip (before ++ core ++ after)))) = core.
Proof.
  intros Hb Ha Hne Hcore.
  assert (Hplain : forall l : list ascii,
            l <> [] -> forallb is_otp_char l = true -> forall r, lstrip (l ++ r) = l ++ r).
  { intros [|c l] Hl Hall r; [done|]. apply lstrip_plain. simpl.
    apply andb_true_iff in Hall as [Hc _]. by apply otp_char_plain in Hc as [? _]. }
  rewrite lstrip_spaces by done. rewrite Hplain by done.
  rewrite reverse_app, lstrip_spaces by (by rewrite forallb_reverse).
  rewrite <- (app_nil_r (reverse core)), Hplain.
  - by rewrite app_nil_r, reverse_involutive.
  - intros Hnil. apply Hne. by rewrite <- (reverse_involutive core), Hnil.
  - by rewrite forallb_reverse.
Qed.

Lemma fmap_upper_plain (l : list ascii) :
  forallb is_otp_char l = true -> upper_char <$> l = l.
Proof.
  induction l as [|c l IH]; [done|]. intros Hall. cbn [forallb] in Hall.
  apply andb_true_iff in Hall as [Hc Hl].
  rewrite fmap_cons, IH by done. by apply otp_char_plain in Hc as [_ ->].
Qed.

Lemma list_ascii_of_string_app (s1 s2 : string) :
  list_ascii_of_string (s1 +:+ s2) = list_ascii_of_string s1 ++ list_ascii_of_string s2.
Proof. induction s1 as [|c s1 IH]; [done|]. simpl. by rewrite <- IH. Qed.

Lemma length_list_ascii_of_string (s : string) :
  length (list_ascii_of_string s) = String.length s.
Proof. induction s as [|c s IH]; [done|]. simpl. by rewrite IH. Qed.

Lemma normalize_plain (l : list ascii) (before after : list ascii) :
  forallb is_space before = true -> forallb is_space after = true ->
  length l = 5%nat -> forallb is_otp_char l = true ->
  _normalize_bus_otp (Some (string_of_list_ascii (before ++ l ++ after))) =
  Some (string_of_list_ascii l).
Proof.
  intros Hb Ha Hlen Hall. unfold _normalize_bus_otp, str, strip, upper. simpl default.
  rewrite !String.list_ascii_of_string_of_list_ascii.
  rewrite strip_padding by (done || by destruct l).
  rewrite ?String.list_ascii_of_string_of_list_ascii, fmap_upper_plain by done.
  rewrite decide_False by (by destruct l).
  unfold _OTP_RE_fullmatch. rewrite String.list_ascii_of_string_of_list_ascii.
  by rewrite Hlen, Hall.
Qed.

Lemma otp_alphabet_lookup (i : nat) :
  (i < 36)%nat -> exists c, otp_alphabet !! i = Some c /\ is_otp_char c = true.
Proof.
  intros Hi. do 36 (destruct i as [|i]; [by eexists|]). lia.
Qed.

Lemma generate_otp_chars (draws : list nat) :
  Forall (fun i => (i < 36)%nat) draws ->
  length (omap (fun i => otp_alphabet !! i) draws) = length draws /\
  forallb is_otp_char (omap (fun i => otp_alphabet !! i) draws) = true.
Proof.
  induction 1 as [|i draws Hi _ [IH1 IH2]]; [done|].
  destruct (otp_alphabet_lookup i Hi) as (c & Hc & Hotp).
  csimpl. rewrite Hc. simpl. by rewrite IH1, IH2, Hotp.
Qed.

(** X16. An OTP that comes out of the normalisation has five characters,
    each a capital letter or a digit, and is left as it is when normalised
    again; the normalisation does not look at the case of what is typed. *)
Theorem normalized_otp_is_canonical (value : option string) :
  (forall otp, _normalize_bus_otp value = Some otp ->
     String.length otp = 5%nat /\
     forallb is_otp_char (list_ascii_of_string otp) = true /\
     _normalize_bus_otp (Some otp) = Some otp) /\
  _normalize_bus_otp (upper <$> value) = _normalize_bus_otp value.
Proof.
  split.
  - intros otp. unfold _normalize_bus_otp at 1. destruct value as [v|]; [|done].
    case_decide; [done|].
    destruct (_OTP_RE_fullmatch _) eqn:Hmatch; [|done]. intros [= <-].
    set (otp := upper (strip (str (Some v)))) in *.
    unfold _OTP_RE_fullmatch in Hmatch. apply andb_true_iff in Hmatch as [Hlen Hall].
    apply Nat.eqb_eq in Hlen.
    split; [by rewrite length_list_ascii_of_string in Hlen|].
    split; [done|].
    pose proof (normalize_plain (list_ascii_of_string otp) [] [] eq_refl eq_refl Hlen Hall)
      as Hfix.
    by rewrite app_nil_l, app_nil_r, String.string_of_list_ascii_of_string in Hfix.
  - destruct value as [v|]; [|done]. unfold _normalize_bus_otp. csimpl.
    assert (Hsame : upper (strip (upper v)) = upper (strip v)); [|by rewrite Hsame].
    unfold upper, strip. rewrite !String.list_ascii_of_string_of_list_ascii.
    rewrite lstrip_fmap_upper, <- fmap_reverse, lstrip_fmap_upper, <- fmap_reverse.
    rewrite <- list_fmap_compose. f_equal. apply list_fmap_ext. intros i c _.
    simpl. apply upper_char_idemp.
Qed.

(** X17. The OTP a bus is given when it is created is one the views
    accept: five draws from the 36 letters and digits, typed back with any
    blanks before and after, normalise to the OTP itself. *)
Theorem generated_otp_is_accepted (draws : list nat) (before after : string) :
  length draws = 5%nat -> Forall (fun i => (i < 36)%nat) draws ->
  forallb is_space (list_ascii_of_string before) = true ->
  forallb is_space (list_ascii_of_string after) = true ->
  _normalize_bus_otp (Some (before +:+ generate_otp draws +:+ after)) =
  Some (generate_otp draws).
Proof.
  intros Hlen Hdraws Hb Ha.
  destruct (generate_otp_chars draws Hdraws) as [Hl Hall].
  rewrite <- (String.string_of_list_ascii_of_string (before +:+ _)).
  rewrite !list_ascii_of_string_app. unfold generate_otp.
  rewrite String.list_ascii_of_string_of_list_ascii.
  apply normalize_plain; [done|done| |done]. by rewrite Hl.
Qed.

End TextFacts.

Lemma generated_otp_is_accepted_witness :
  _normalize_bus_otp (Some (" " +:+ generate_otp [10; 1; 26; 26; 27]%nat +:+ "  ")) =
  Some "KB001".
Proof.
  apply (generated_otp_is_accepted [10; 1; 26; 26; 27]%nat " " "  ").
  - reflexivity.
  - repeat (apply Forall_cons_2; [lia|]). apply Forall_nil_2.
  - reflexivity.
  - reflexivity.
Defined.

(** * Fare quotes and tickets *)

Lemma bus_by_otp_Some (db : DB) (otp : string) (bus : Bus) :
  bus_by_otp db otp = Some bus -> bus ∈ db_buses db /\ bus_otp_code bus = otp.
Proof.
  intros H. apply first_by_pk_elem_of in H. by apply list_elem_of_filter in H as [? ?].
Qed.

Lemma select_stop_Some (db : DB) (bus : Bus) (field : string) (s : Stop) :
  select_stop db bus field = Some s ->
  s ∈ db_stops db /\ stop_route s = bus_route bus /\
  (stop_name s = field \/ Some (stop_id s) = _to_int (Some field) (Some 1) None).
Proof.
  unfold select_stop.
  assert (Hname : head (order_by stop_leb
                          (filter (fun s => stop_name s = field)
                             (filter (fun s => stop_route s = bus_route bus) (db_stops db)))) =
                  Some s ->
                  s ∈ db_stops db /\ stop_route s = bus_route bus /\
                  (stop_name s = field \/ Some (stop_id s) = _to_int (Some field) (Some 1) None)).
  { intros H. apply head_order_by_elem_of in H.
    apply list_elem_of_filter in H as [Hn H]. apply list_elem_of_filter in H as [Hr H].
    auto. }
  destruct (_to_int (Some field) (Some 1) None) as [id|]; [|done].
  destruct (id =? 0); [done|].
  intros H. apply first_by_pk_elem_of in H.
  apply list_elem_of_filter in H as [Hid H]. apply list_elem_of_filter in H as [Hr H].
  split; [done|]. split; [done|]. right. by rewrite Hid.
Qed.

Section BookingExtras.
Local Open Scope Z_scope.
Variable distance_meters : Q -> Q -> Q -> Q -> Q.
Variable str_float : Q -> distance_arg.

(** X18. A booking charges what the quote says: for a posted form, when
    [calculate_fare] quotes a fare, [bus_ticket] with the same fields adds
    exactly one ticket, of that fare, for the passenger logged in, which
    expires 30 minutes after the request; when [calculate_fare] answers
    with an error, [bus_ticket] adds no ticket; and when the one raises,
    so does the other. *)
Theorem booking_charges_quoted_fare
    (db : DB) (tickets : list Ticket) (user : User) (req : fare_request) (now : Z) :
  post_is_post req = true ->
  match calculate_fare distance_meters str_float db req with
  | Return (FareQuoted fare) =>
      exists ticket,
        bus_ticket distance_meters str_float db tickets user req now =
        Return (RedirectTicketView (ticket_id ticket), tickets ++ [ticket]) /\
        ticket_fare ticket = fare /\ ticket_user ticket = user_id user /\
        ticket_id ticket = fresh_pk (ticket_id <$> tickets) /\
        ticket_created_at ticket = now /\
        ticket_expires_at ticket = Some (now + 1800000000)
  | Return (FareError code error) =>
      code = 400 /\
      exists to, bus_ticket distance_meters str_float db tickets user req now =
                 Return (to, tickets) /\
                 forall id, to <> RedirectTicketView id
  | Raise e => bus_ticket distance_meters str_float db tickets user req now = Raise e
  end.
Proof.
  intros Hpost. unfold calculate_fare, bus_ticket. rewrite Hpost. cbn [negb].
  destruct (_normalize_bus_otp (post_otp req)) as [otp|]; [|by eauto].
  case_decide; [by eauto|].
  destruct (bool_decide _ || bool_decide _); [by eauto|].
  destruct (bus_by_otp db otp) as [bus|]; [|by eauto].
  destruct (select_stop db bus _) as [source_stop|]; [|by eauto].
  destruct (select_stop db bus _) as [dest_stop|]; [|by eauto].
  case_decide; [by eauto|].
  destruct (stop_order dest_stop <=? stop_order source_stop); [by eauto|].
  destruct (_route_path_distance_m _ _ _ _ _) as [distance_m|e]; [|done]. csimpl.
  destruct (_fare_from_distance_m _) as [fare|e]; [|done]. csimpl.
  by exists (mkTicket (fresh_pk (ticket_id <$> tickets)) (user_id user) (bus_id bus)
               (stop_name source_stop) (stop_name dest_stop) fare now
               (Some (now + thirty_minutes))).
Qed.

(** X19. A fare is quoted only for a journey forwards along the route of
    the bus whose OTP is given: the two stops are stops of that route, the
    destination comes later in order than the source, and the fare is the
    fare of the path distance between them. A journey from a stop to
    itself is never quoted. *)
Theorem fare_quoted_for_forward_journey (db : DB) (req : fare_request) (fare : Dec.Decimal) :
  calculate_fare distance_meters str_float db req = Return (FareQuoted fare) ->
  (exists otp bus source dest distance_m,
     _normalize_bus_otp (post_otp req) = Some otp /\
     bus ∈ db_buses db /\ bus_otp_code bus = otp /\
     source ∈ db_stops db /\ stop_route source = bus_route bus /\
     dest ∈ db_stops db /\ stop_route dest = bus_route bus /\
     stop_order source < stop_order dest /\
     _route_path_distance_m distance_meters db (bus_route bus) source dest =
     Return distance_m /\
     _fare_from_distance_m (str_float distance_m) = Return fare) /\
  strip (or_empty (post_source req)) <> strip (or_empty (post_destination req)).
Proof.
  unfold calculate_fare.
  destruct (post_is_post req); [|done]. cbn [negb].
  destruct (_normalize_bus_otp (post_otp req)) as [otp|]; [|done].
  case_decide; [done|].
  destruct (bool_decide _ || bool_decide _); [done|].
  destruct (bus_by_otp db otp) as [bus|] eqn:Hbus; [|done].
  destruct (select_stop db bus (strip (or_empty (post_source req))))
    as [source_stop|] eqn:Hsrc; [|done].
  destruct (select_stop db bus (strip (or_empty (post_destination req))))
    as [dest_stop|] eqn:Hdst; [|done].
  case_decide as Hsame; [done|].
  destruct (Z.leb_spec (stop_order dest_stop) (stop_order source_stop)) as [|Horder]; [done|].
  destruct (_route_path_distance_m _ _ _ _ _) as [distance_m|e] eqn:Hpath; [|done]. csimpl.
  destruct (_fare_from_distance_m _) as [fare'|e] eqn:Hfare; [|done]. csimpl.
  intros [= <-].
  apply bus_by_otp_Some in Hbus as [Hb Hotp].
  split.
  - apply select_stop_Some in Hsrc as (? & ? & _), Hdst as (? & ? & _).
    exists otp, bus, source_stop, dest_stop, distance_m. by repeat split.
  - intros Heq. rewrite Heq in Hsrc. congruence.
Qed.

End BookingExtras.

(** The form of the test suite: the bus of OTP KB001, from stop 1 to
    stop 5, the OTP typed in small letters. *)
Lemma fare_quoted_for_forward_journey_witness :
  exists otp bus source dest distance_m,
    _normalize_bus_otp (Some "kb001") = Some otp /\
    bus ∈ db_buses example_db /\ bus_otp_code bus = otp /\
    source ∈ db_stops example_db /\ stop_route source = bus_route bus /\
    dest ∈ db_stops example_db /\ stop_route dest = bus_route bus /\
    stop_order source < stop_order dest /\
    _route_path_distance_m grid_distance_m example_db (bus_route bus) source dest =
    Return distance_m /\
    _fare_from_distance_m (millimetre_numeral distance_m) =
    Return (Dec.Finite 1100 (-2)).
Proof.
  destruct (fare_quoted_for_forward_journey grid_distance_m millimetre_numeral example_db
              (mkFareRequest true (Some "kb001") (Some "1") (Some "5"))
              (Dec.Finite 1100 (-2)) eq_refl) as [Hquote _].
  exact Hquote.
Defined.

Lemma booking_charges_quoted_fare_witness :
  exists ticket,
    bus_ticket grid_distance_m millimetre_numeral example_db [] (mkUser 9 "p1" "passenger")
      (mkFareRequest true (Some "kb001") (Some "1") (Some "5")) 1000 =
    Return (RedirectTicketView (ticket_id ticket), [ticket]) /\
    ticket_fare ticket = Dec.Finite 1100 (-2).
Proof.
  pose proof (booking_charges_quoted_fare grid_distance_m millimetre_numeral example_db []
                (mkUser 9 "p1" "passenger")
                (mkFareRequest true (Some "kb001") (Some "1") (Some "5")) 1000 eq_refl)
    as Hbook.
  destruct Hbook as (ticket & Hticket & Hfare & _).
  exists ticket. split; [exact Hticket | exact Hfare].
Defined.
